(** * Rate-limit plugin of elysia-plugins: a shallow embedding

    The development follows [rateLimitPlugin] and its collaborators
    ([DefaultRateLimitContext], the key generator, the logger) as they are
    written in the TypeScript source, and states the behaviour of the
    [onRequest] hook over that embedding.

    Modelling conventions.
    - JavaScript numbers that the plugin handles (option values, [Date.now()]
      readings, counters) are integers; they are modelled as [Z], which is
      exact below 2^53 where a double represents every integer.
    - Header names are HTTP tokens, hence ASCII; strings are Rocq strings.
    - [set.headers] is a plain JavaScript object used as a map from property
      names to strings: a [gmap string string].
    - The LRU cache of the [lru-cache] package is modelled by the list of
      its items, least recently used first, each with the instant at which
      its time-to-live was last armed.
    - The hook is an [async] function with a single [await]; requests in
      flight together are modelled by the interleavings of the two pieces
      of each hook, every piece running to completion as on the event
      loop. *)

From Stdlib Require Import ZArith Lia Ascii String.
From stdpp Require Import base option list gmap strings pretty.

Open Scope Z_scope.

(** ** JavaScript string and number primitives used by the plugin *)

Module Js.

(** [String.prototype.toLowerCase] on one ASCII code unit. *)
Definition lower_ascii (c : ascii) : ascii :=
  let n := N_of_ascii c in
  if ((65 <=? n) && (n <=? 90))%N then ascii_of_N (n + 32) else c.

Fixpoint toLowerCase (s : string) : string :=
  match s with
  | EmptyString => EmptyString
  | String c s' => String (lower_ascii c) (toLowerCase s')
  end.

(** White space removed by [String.prototype.trim]: TAB, LF, VT, FF, CR
    and SPACE are the ASCII members of the ECMAScript WhiteSpace and
    LineTerminator classes. *)
Definition is_white (c : ascii) : bool :=
  let n := N_of_ascii c in
  (((9 <=? n) && (n <=? 13)) || (n =? 32))%N.

Fixpoint trimStart (s : string) : string :=
  match s with
  | EmptyString => EmptyString
  | String c s' => if is_white c then trimStart s' else s
  end.

(** [trimEnd] drops the trailing white space: a suffix that is white
    space only disappears, anything else is kept. *)
Fixpoint trimEnd (s : string) : string :=
  match s with
  | EmptyString => EmptyString
  | String c s' =>
      match trimEnd s' with
      | EmptyString => if is_white c then EmptyString else String c EmptyString
      | t => String c t
      end
  end.

Definition trim (s : string) : string := trimEnd (trimStart s).

(** [Array.prototype.includes] on an array of strings. *)
Definition includes (xs : list string) (x : string) : bool :=
  bool_decide (x ∈ xs).

(** [Array.prototype.at(0) ?? d]. *)
Definition at0_or {A} (xs : list A) (d : A) : A :=
  match xs with
  | [] => d
  | x :: _ => x
  end.

(** [Number.prototype.toString] on an integer: decimal digits, with a
    leading minus sign below zero. *)
Definition toString (n : Z) : string := pretty n.

(** [Math.ceil(n / d)] for integers [n] and [d > 0]. *)
Definition ceil_div (n d : Z) : Z := - ((- n) / d).

(** [Math.max(a, b)]. *)
Definition max (a b : Z) : Z := Z.max a b.

(** The outcome of calling user-supplied JavaScript: a value, or a thrown
    exception (a rejected promise, once awaited, is a throw too). *)
Inductive Completion (A : Type) : Type :=
| Normal (a : A)
| Throw (e : string).
Global Arguments Normal {A} a.
Global Arguments Throw {A} e.

End Js.

Export Js (Completion, Normal, Throw).

(** ** Requests *)

(** A [Request], as far as the plugin looks at it: the pairs that
    [request.headers.entries()] yields, in iteration order. *)
Record Request := mkRequest {
  headers_entries : list (string * string);
}.

(** The names the default key generator looks for.  The first one is
    spelled as in the source. *)
Definition forwarding_names : list string :=
  ["x-forwareded-for"; "x-real-ip"; "forwarded"].

(** [defaultKeyGenerator]: the value of the first header whose trimmed,
    lower-cased name is one of [forwarding_names], or ["unknown"]. *)
Definition defaultKeyGenerator (request : Request) : string :=
  Js.at0_or
    (map (fun v : string * string => v.2)
       (filter (fun kv : string * string =>
                  Is_true (Js.includes forwarding_names (Js.toLowerCase (Js.trim kv.1))))
          (headers_entries request)))
    "unknown".

(** ** The counter store *)

(** The value kept per client key: [{ count: number; reset: number }]. *)
Record Entry := mkEntry {
  count : Z;
  reset : Z;
}.

(** The two clocks read while the hook runs: [Date.now()], read by the hook
    itself, and the cache's own millisecond clock, read by the time-to-live
    bookkeeping inside [get] and [set]. *)
Record Clock := mkClock {
  date_now : Z;
  cache_now : Z;
}.

(** Modelled from the spec: the class [LRUCache] comes from the [lru-cache]
    package, whose code is not in the repository.  The specification gives
    the contract of the store that [new LRUCache({ max, ttl })] provides:
    [get] answers [undefined] for a key that is missing or whose
    time-to-live has run out (the stale item is dropped), and otherwise
    returns the entry and makes it the most recently used; [set] inserts or
    overwrites, re-arms the time-to-live, makes the item the most recently
    used, and evicts the least recently used item when a new key arrives at
    a full cache. *)
Module LRUCache.

Record Item := mkItem {
  item_key : string;
  item_value : Entry;
  item_start : Z;
}.

(** [items] runs from the least recently used item to the most recently
    used one. *)
Record t := mk {
  max : Z;
  ttl : Z;
  items : list Item;
}.

Definition create (max : Z) (ttl : Z) : t := mk max ttl [].

Definition has_key (k : string) (it : Item) : bool :=
  bool_decide (item_key it = k).

Definition find_item (k : string) (l : list Item) : option Item :=
  List.find (has_key k) l.

Definition remove (k : string) (l : list Item) : list Item :=
  List.filter (fun it => negb (has_key k it)) l.

(** An item is stale when more than [ttl] milliseconds have passed since it
    was armed. *)
Definition isStale (c : t) (tick : Z) (it : Item) : bool :=
  bool_decide (tick - item_start it > ttl c).

(** Modelled from the spec: [get(key)] returns the current entry if present
    and not expired, and refreshes its recency. *)
Definition get (k : string) (tick : Z) (c : t) : option Entry * t :=
  match find_item k (items c) with
  | None => (None, c)
  | Some it =>
      if isStale c tick it
      then (None, mk (max c) (ttl c) (remove k (items c)))
      else (Some (item_value it), mk (max c) (ttl c) (remove k (items c) ++ [it]))
  end.

Definition evict (l : list Item) : list Item := tail l.

(** Modelled from the spec: [set(key, counter)] inserts or overwrites the
    entry, refreshes its recency and re-arms its time-to-live; an insertion
    into a full cache evicts the least recently used entry first. *)
Definition set (k : string) (v : Entry) (tick : Z) (c : t) : t :=
  match find_item k (items c) with
  | Some _ => mk (max c) (ttl c) (remove k (items c) ++ [mkItem k v tick])
  | None =>
      let kept :=
        if bool_decide (Z.of_nat (length (items c)) < max c)
        then items c else evict (items c) in
      mk (max c) (ttl c) (kept ++ [mkItem k v tick])
  end.

(** What the cache holds for a key, without touching recency or expiry. *)
Definition peek (k : string) (c : t) : option Entry :=
  item_value <$> find_item k (items c).

End LRUCache.

(** [DefaultRateLimitContext]: the cache behind the [RateLimitContext]
    interface. *)
Module DefaultRateLimitContext.

Record t := mk { cache : LRUCache.t }.

(** [constructor(maxEntries = 10000)]; the time-to-live is one hour. *)
Definition new (maxEntries : option Z) : t :=
  mk (LRUCache.create (default 10000 maxEntries) (1 * 3600 * 1000)).

Definition get (key : string) (tick : Z) (this : t) : option Entry * t :=
  let '(v, c) := LRUCache.get key tick (cache this) in (v, mk c).

Definition set (key : string) (value : Entry) (tick : Z) (this : t) : t :=
  mk (LRUCache.set key value tick (cache this)).

End DefaultRateLimitContext.

(** ** The logger reached through [store.logger] *)

Inductive LogLevel := debug | info | warn | error.

Definition levels (l : LogLevel) : Z :=
  match l with debug => 0 | info => 1 | warn => 2 | error => 3 end.

(** A [Logger]: its configured minimum level and the messages it has put
    out (console line and log-file line carry the same message). *)
Record Logger := mkLogger {
  logLevel : option LogLevel;
  emitted : list (LogLevel * string);
}.

Definition shouldLog (messageLevel minLevel : LogLevel) : bool :=
  bool_decide (levels messageLevel >= levels minLevel).

Definition Logger_log (level : LogLevel) (message : string) (this : Logger) : Logger :=
  if negb (shouldLog level (default info (logLevel this))) then this
  else mkLogger (logLevel this) (emitted this ++ [(level, message)]).

(** ** The plugin *)

(** [errorResponse]: a fixed body, or a function of the request. *)
Inductive ErrorResponse :=
| Static (body : string)
| Producer (f : Request -> Completion string).

Record RateLimitOptions := mkOptions {
  opt_maxRequests : option Z;
  opt_duration : option Z;
  opt_keyGenerator : option (Request -> Completion string);
  opt_errorResponse : option ErrorResponse;
  opt_skip : option (Request -> string -> Completion bool);
}.

(** [rateLimitPlugin()] is called with [options = {}]. *)
Definition no_options : RateLimitOptions := mkOptions None None None None None.

(** What the closure of the [onRequest] hook captures: the destructured
    options, with their defaults filled in. *)
Record Plugin := mkPlugin {
  maxRequests : Z;
  duration : Z;
  keyGenerator : Request -> Completion string;
  errorResponse : ErrorResponse;
  skip : Request -> string -> Completion bool;
}.

(** The destructuring [const { maxRequests = 100, ... } = options]. *)
Definition destructure (options : RateLimitOptions) : Plugin :=
  mkPlugin
    (default 100 (opt_maxRequests options))
    (default (60 * 1000) (opt_duration options))
    (default (fun request => Normal (defaultKeyGenerator request))
       (opt_keyGenerator options))
    (default (Static "Too many requests") (opt_errorResponse options))
    (default (fun _ _ => Normal false) (opt_skip options)).

(** [rateLimitPlugin(options)]: the destructured options and the cache
    created next to them, which the hook closes over.  The body has no
    [throw] and calls no validator, so the call completes normally for every
    [options]. *)
Definition rateLimitPlugin (options : RateLimitOptions)
  : Completion (Plugin * DefaultRateLimitContext.t) :=
  let plugin := destructure options in
  let context := DefaultRateLimitContext.new None in
  Normal (plugin, context).

(** ** The state the hook works on *)

(** Elysia's [set]: the response headers and status under construction. *)
Record SetCtx := mkSet {
  set_headers : gmap string string;
  set_status : option Z;
}.

(** [context] is the plugin's cache, shared by all requests; [set] belongs
    to the request in hand; [logger] is [store.logger]. *)
Record HookState := mkState {
  context : DefaultRateLimitContext.t;
  set : SetCtx;
  logger : Logger;
}.

(** Computations of the hook: they read and change the state, and end with
    a value or a thrown exception.  What was changed before a throw stays
    changed. *)
Definition Hook (A : Type) : Type := HookState -> Completion A * HookState.

Definition ret {A} (a : A) : Hook A := fun s => (Normal a, s).

Definition bind {A B} (f : A -> Hook B) (m : Hook A) : Hook B :=
  fun s =>
    match m s with
    | (Normal a, s') => f a s'
    | (Throw e, s') => (Throw e, s')
    end.

#[global] Instance hook_ret : MRet Hook := @ret.
#[global] Instance hook_bind : MBind Hook := @bind.

(** The outcome of a call into user code becomes the outcome of the step. *)
Definition call {A} (c : Completion A) : Hook A := fun s => (c, s).

Definition context_get (key : string) (clock : Clock) : Hook (option Entry) :=
  fun s =>
    let '(v, c) := DefaultRateLimitContext.get key (cache_now clock) (context s) in
    (Normal v, mkState c (set s) (logger s)).

Definition context_set (key : string) (value : Entry) (clock : Clock) : Hook unit :=
  fun s =>
    (Normal tt,
     mkState (DefaultRateLimitContext.set key value (cache_now clock) (context s))
       (set s) (logger s)).

(** [set.headers[name] = value]. *)
Definition set_header (name value : string) : Hook unit :=
  fun s =>
    (Normal tt,
     mkState (context s)
       (mkSet (<[name := value]> (set_headers (set s))) (set_status (set s)))
       (logger s)).

(** [set.status = code]. *)
Definition set_status_to (code : Z) : Hook unit :=
  fun s =>
    (Normal tt,
     mkState (context s) (mkSet (set_headers (set s)) (Some code)) (logger s)).

(** [store.logger.log(level, message)]. *)
Definition logger_log (level : LogLevel) (message : string) : Hook unit :=
  fun s =>
    (Normal tt, mkState (context s) (set s) (Logger_log level message (logger s))).

(** ** The [onRequest] hook *)

(** The hook from [const now = Date.now()] to its end: the part that runs
    once [await skip(request, key)] has delivered [false].  It returns the
    rejection body, or [None] for [undefined] when the request goes on.

    When [context.get] finds the entry, [entry] is the very object that the
    cache holds, and [entry.count += 1] changes it in place; the next
    statement, with nothing in between, is [context.set(key, entry)] with that
    same object, so the cache after the write is the same as with a copy. *)
Definition admission (p : Plugin) (clock : Clock) (request : Request) (key : string)
  : Hook (option string) :=
  let now := date_now clock in
  let resetTime := now + duration p in
  found ← context_get key clock;
  let entry :=
    match found with
    | None => mkEntry 0 resetTime
    | Some e => if bool_decide (now > reset e) then mkEntry 0 resetTime else e
    end in
  let entry := mkEntry (count entry + 1) (reset entry) in
  context_set key entry clock;;
  set_header "RateLimit-Limit" (Js.toString (maxRequests p));;
  set_header "RateLimit-Remaining"
    (Js.toString (Js.max 0 (maxRequests p - count entry)));;
  set_header "RateLimit-Reset" (Js.toString (Js.ceil_div (reset entry) 1000));;
  if bool_decide (count entry > maxRequests p) then
    set_status_to 429;;
    set_header "Retry-After" (Js.toString (Js.ceil_div (duration p) 1000));;
    logger_log warn ("Rate limit exceeded for key: " +:+ key);;
    body ← match errorResponse p with
            | Producer f => call (f request)
            | Static body => mret body
            end;
    mret (Some body)
  else
    mret None.

(** The whole hook, run without interruption. *)
Definition onRequest (p : Plugin) (clock : Clock) (request : Request)
  : Hook (option string) :=
  key ← call (keyGenerator p request);
  skipped ← call (skip p request key);
  if (skipped : bool) then mret None
  else admission p clock request key.

(** ** The host: requests one after the other *)

(** What outlives a request: the plugin's cache and the logger. *)
Record Shared := mkShared {
  shared_context : DefaultRateLimitContext.t;
  shared_logger : Logger;
}.

(** What the host sees when the hook is done with a request: how the hook
    ended, and the [set] it leaves. *)
Record Outcome := mkOutcome {
  result : Completion (option string);
  response : SetCtx;
}.

(** The hook ends with [undefined]: the request goes on to its handler. *)
Definition proceeds (o : Outcome) : Prop := result o = Normal None.

(** One request: the hook runs on the shared state and on the [set] that
    the host made for this request. *)
Definition handle (p : Plugin) (sh : Shared) (clock : Clock) (request : Request)
    (set0 : SetCtx) : Outcome * Shared :=
  let '(r, s) :=
    onRequest p clock request (mkState (shared_context sh) set0 (shared_logger sh)) in
  (mkOutcome r (set s), mkShared (context s) (logger s)).

(** Requests served in order, each with the same initial [set]. *)
Fixpoint serve (p : Plugin) (set0 : SetCtx) (arrivals : list (Clock * Request))
    (sh : Shared) : list Outcome * Shared :=
  match arrivals with
  | [] => ([], sh)
  | (clock, request) :: rest =>
      let '(o, sh1) := handle p sh clock request set0 in
      let '(os, sh2) := serve p set0 rest sh1 in
      (o :: os, sh2)
  end.

(** What the cache holds for a key. *)
Definition stored (key : string) (sh : Shared) : option Entry :=
  LRUCache.peek key (DefaultRateLimitContext.cache (shared_context sh)).

(** ** The host: requests in flight together *)

(** The hook is an [async] function with one [await].  It runs from its
    call to [await skip(request, key)] in one piece, and from there to its
    end in another piece; other hooks can run in between, never inside a
    piece. *)
Inductive Progress :=
| Arrived
| Awaiting (key : string) (pending : Completion bool)
| Settled (r : Completion (option string)).

Record Task := mkTask {
  task_request : Request;
  task_set : SetCtx;
  task_progress : Progress;
}.

(** The next piece of a task. *)
Definition advance (p : Plugin) (clock : Clock) (t : Task) (sh : Shared)
  : Task * Shared :=
  match task_progress t with
  | Arrived =>
      match keyGenerator p (task_request t) with
      | Throw e => (mkTask (task_request t) (task_set t) (Settled (Throw e)), sh)
      | Normal key =>
          (mkTask (task_request t) (task_set t)
             (Awaiting key (skip p (task_request t) key)), sh)
      end
  | Awaiting key pending =>
      match pending with
      | Throw e => (mkTask (task_request t) (task_set t) (Settled (Throw e)), sh)
      | Normal true => (mkTask (task_request t) (task_set t) (Settled (Normal None)), sh)
      | Normal false =>
          let '(r, s) :=
            admission p clock (task_request t) key
              (mkState (shared_context sh) (task_set t) (shared_logger sh)) in
          (mkTask (task_request t) (set s) (Settled r),
           mkShared (context s) (logger s))
      end
  | Settled _ => (t, sh)
  end.

Record System := mkSystem {
  tasks : list Task;
  shared : Shared;
}.

(** The event loop picks task [i] and runs its next piece. *)
Definition step (p : Plugin) (i : nat) (clock : Clock) (sys : System) : System :=
  match tasks sys !! i with
  | None => sys
  | Some t =>
      let '(t', sh') := advance p clock t (shared sys) in
      mkSystem (<[i := t']> (tasks sys)) sh'
  end.

(** A schedule: which task runs next, and what the clocks show then. *)
Fixpoint run (p : Plugin) (schedule : list (nat * Clock)) (sys : System) : System :=
  match schedule with
  | [] => sys
  | (i, clock) :: rest => run p rest (step p i clock sys)
  end.

(** A request counts against [key] when the key generator gives [key] and
    the skip predicate answers [false]. *)
Definition counted (p : Plugin) (key : string) (request : Request) : bool :=
  match keyGenerator p request with
  | Normal k =>
      bool_decide (k = key) &&
      match skip p request k with Normal false => true | _ => false end
  | Throw _ => false
  end.

Definition settledb (t : Task) : bool :=
  match task_progress t with Settled _ => true | _ => false end.

(** Whether the next piece of a task is its last: a task at its [await]
    settles next; a task not yet started settles next when its key generator
    throws. *)
Definition settles_next (p : Plugin) (t : Task) : bool :=
  match task_progress t with
  | Arrived =>
      match keyGenerator p (task_request t) with
      | Throw _ => true
      | Normal _ => false
      end
  | Awaiting _ _ => true
  | Settled _ => false
  end.

(** The order in which a schedule settles the requests, each with what the
    clocks showed when it settled. *)
Fixpoint linearization (p : Plugin) (schedule : list (nat * Clock)) (sys : System)
  : list (Clock * Request) :=
  match schedule with
  | [] => []
  | (i, clock) :: rest =>
      match tasks sys !! i with
      | Some t => if settles_next p t then [(clock, task_request t)] else []
      | None => []
      end ++ linearization p rest (step p i clock sys)
  end.

(** A task waiting at its [await] holds the key and the answer that the
    plugin's own key generator and skip predicate give for its request. *)
Definition consistent (p : Plugin) (t : Task) : Prop :=
  match task_progress t with
  | Awaiting key pending =>
      keyGenerator p (task_request t) = Normal key /\
      pending = skip p (task_request t) key
  | _ => True
  end.

(** The cache behind the shared state. *)
Definition cache_of (sh : Shared) : LRUCache.t :=
  DefaultRateLimitContext.cache (shared_context sh).

(** The instant at which the time-to-live of a key was last armed. *)
Definition armed (key : string) (sh : Shared) : option Z :=
  LRUCache.item_start <$> LRUCache.find_item key (LRUCache.items (cache_of sh)).

(** The count that the cache holds for a key: 0 when it holds none. *)
Definition count_of (key : string) (sh : Shared) : Z :=
  default 0 (count <$> stored key sh).

(** The cache holds for [key] the entry with count [c] and reset [r], armed
    at an instant between [lo] and [hi]. *)
Definition holds (key : string) (c r lo hi : Z) (sh : Shared) : Prop :=
  exists it,
    LRUCache.find_item key (LRUCache.items (cache_of sh)) = Some it /\
    LRUCache.item_value it = mkEntry c r /\
    lo <= LRUCache.item_start it <= hi.

(** What [context.get(key)] answers when the cache clock shows what
    [clock] says. *)
Definition lookup_now (key : string) (clock : Clock) (sh : Shared) : option Entry :=
  (DefaultRateLimitContext.get key (cache_now clock) (shared_context sh)).1.

(** A response header and the status, as the hook leaves them. *)
Definition header (name : string) (o : Outcome) : option string :=
  set_headers (response o) !! name.

Definition status (o : Outcome) : option Z := set_status (response o).

(** ** Sample inputs *)

(** Three requests per second, everything else by default. *)
Definition sample_options : RateLimitOptions :=
  mkOptions (Some 3) (Some 1000) None None None.

Definition sample_plugin : Plugin := destructure sample_options.

Definition sample_key : string := "203.0.113.7".

Definition sample_request : Request :=
  mkRequest [("accept", "*/*"); ("x-real-ip", sample_key)].

(** The shared state when the plugin has just been created. *)
Definition fresh_shared : Shared :=
  mkShared (DefaultRateLimitContext.new None) (mkLogger None []).

(** A [set] with no header and no status yet. *)
Definition blank_set : SetCtx := mkSet ∅ None.

(** Both clocks showing the same millisecond. *)
Definition at_ms (t : Z) : Clock := mkClock t t.

(** The shared state after [n] sample requests in the millisecond 0. *)
Definition after_requests (n : nat) : Shared :=
  (serve sample_plugin blank_set (replicate n (at_ms 0, sample_request)) fresh_shared).2.

(** A plugin that lets the sample key through unlimited, in the way of the
    README's [skip: (request, key) => key === 'trusted-ip']. *)
Definition trusting_plugin : Plugin :=
  destructure
    (mkOptions (Some 3) (Some 1000) None None
       (Some (fun _ key => Normal (bool_decide (key = sample_key))))).

(** A plugin whose key generator throws. *)
Definition failing_plugin : Plugin :=
  destructure
    (mkOptions (Some 3) (Some 1000) (Some (fun _ => Throw "no client address"))
       None None).

(** A request whose only forwarding header is the standard one. *)
Definition proxied_request : Request :=
  mkRequest [("X-Forwarded-For", "203.0.113.7"); ("accept", "*/*")].

(** Two sample requests in flight together, neither started yet. *)
Definition two_in_flight : list Task :=
  [mkTask sample_request blank_set Arrived; mkTask sample_request blank_set Arrived].

(** The first task starts, the second starts and settles, the first
    settles. *)
Definition sample_schedule : list (nat * Clock) :=
  [(0%nat, at_ms 5); (1%nat, at_ms 5); (1%nat, at_ms 6); (0%nat, at_ms 7)].

(** A window of two hours, longer than the cache's time-to-live. *)
Definition two_hour_plugin : Plugin :=
  destructure (mkOptions (Some 3) (Some 7200000) None None None).

(** The first request starts and the second starts; the first settles in
    the same millisecond, the second ninety minutes later. *)
Definition late_schedule : list (nat * Clock) :=
  [(0%nat, at_ms 1000); (1%nat, at_ms 1000); (0%nat, at_ms 1000);
   (1%nat, at_ms 5401000)].

(** Every entry in the cache has been counted at least once. *)
Definition well_counted (sh : Shared) : Prop :=
  Forall (fun it => 1 <= count (LRUCache.item_value it)) (LRUCache.items (cache_of sh)).

(** ** More string and array primitives, as the logger uses them *)

Module JsStr.

(** [s.split(sep)] for a separator of one character: the pieces between
    the separators; a string without separator is its only piece. *)
Fixpoint split (sep : ascii) (s : string) : list string :=
  match s with
  | EmptyString => [EmptyString]
  | String c s' =>
      if Ascii.eqb c sep then EmptyString :: split sep s'
      else match split sep s' with
           | [] => [String c EmptyString]
           | piece :: pieces => String c piece :: pieces
           end
  end.

(** [pieces.join(sep)]. *)
Fixpoint join (sep : string) (pieces : list string) : string :=
  match pieces with
  | [] => EmptyString
  | piece :: rest =>
      match rest with
      | [] => piece
      | _ :: _ => piece +:+ sep +:+ join sep rest
      end
  end.

(** [pieces.pop()]: the last element, [undefined] for an empty array. *)
Definition pop (pieces : list string) : option string := last pieces.

(** [pieces.slice(0, -1)]: all elements but the last. *)
Definition slice_init (pieces : list string) : list string := removelast pieces.

(** [s.lastIndexOf(c)]: the position of the last [c] in [s], or -1. *)
Fixpoint lastIndexOf (c : ascii) (s : string) : Z :=
  match s with
  | EmptyString => -1
  | String a s' =>
      let r := lastIndexOf c s' in
      if 0 <=? r then r + 1 else if Ascii.eqb a c then 0 else -1
  end.

Fixpoint take_chars (n : nat) (s : string) : string :=
  match n, s with
  | S n', String c s' => String c (take_chars n' s')
  | _, _ => EmptyString
  end.

(** [s.substring(0, n)]: an end below 0 counts as 0, an end beyond the
    string as its length. *)
Definition substring0 (s : string) (n : Z) : string := take_chars (Z.to_nat n) s.

(** A value in a template literal: [undefined] prints as "undefined". *)
Definition show (x : option string) : string := default "undefined" x.

Definition upper_ascii (c : ascii) : ascii :=
  let n := N_of_ascii c in
  if ((97 <=? n) && (n <=? 122))%N then ascii_of_N (n - 32) else c.

Fixpoint toUpperCase (s : string) : string :=
  match s with
  | EmptyString => EmptyString
  | String c s' => String (upper_ascii c) (toUpperCase s')
  end.

(** The character [c] does not occur in [s]. *)
Fixpoint lacks (c : ascii) (s : string) : Prop :=
  match s with
  | EmptyString => True
  | String a s' => a <> c /\ lacks c s'
  end.

End JsStr.

(** ** The logger, with its console and its files *)

(** The escape sequences of [COLORS]. *)
Definition escape (code : string) : string := String (ascii_of_nat 27) code.
Definition COLORS_debug : string := escape "[36m".
Definition COLORS_info : string := escape "[32m".
Definition COLORS_warn : string := escape "[33m".
Definition COLORS_error : string := escape "[31m".
Definition COLORS_timestamp : string := escape "[90m".
Definition COLORS_method : string := escape "[35m".
Definition COLORS_url : string := escape "[34m".
Definition COLORS_status : string := escape "[32m".
Definition COLORS_responseTime : string := escape "[36m".
Definition COLORS_reset : string := escape "[0m".

(** [COLORS[level]]. *)
Definition COLORS_of (level : LogLevel) : string :=
  match level with
  | debug => COLORS_debug
  | info => COLORS_info
  | warn => COLORS_warn
  | error => COLORS_error
  end.

(** The level as the string that it is in the source. *)
Definition level_name (level : LogLevel) : string :=
  match level with
  | debug => "debug"
  | info => "info"
  | warn => "warn"
  | error => "error"
  end.

(** The numbers that are not integers: the readings of [performance.now()]
    and the response times made of them are doubles, and the logger only
    subtracts them, tests them for truth and prints them with two decimals.
    These operations are taken as given. *)
Record Doubles := mkDoubles {
  double : Type;
  double_zero : double;
  double_truthy : double -> bool;
  double_minus : double -> double -> double;
  double_toFixed2 : double -> string;
}.

(** What the logger reads of a [Request]. *)
Record RequestLine := mkRequestLine {
  line_method : string;
  line_url : string;
}.

(** [new Request('http://localhost')], as the logger reads it. *)
Definition localhost_request : RequestLine := mkRequestLine "GET" "http://localhost/".

(** The third argument of [log]. *)
Record LogCtx (D : Doubles) := mkLogCtx {
  ctx_request : RequestLine;
  ctx_responseTime : option (double D);
  ctx_status : option Z;
}.
Arguments mkLogCtx {D} _ _ _.
Arguments ctx_request {D} _.
Arguments ctx_responseTime {D} _.
Arguments ctx_status {D} _.

Inductive Scope := scope_local | scope_scoped | scope_global.

(** [LoggerOptions]; a formatter gets, before its own arguments, the reading
    of the clock that it may take. *)
Record LoggerOptions (D : Doubles) := mkLoggerOptions {
  lo_logLevel : option LogLevel;
  lo_filePath : option string;
  lo_scope : option Scope;
  lo_format : option (string -> RequestLine -> double D -> Z -> string);
}.
Arguments mkLoggerOptions {D} _ _ _ _.
Arguments lo_logLevel {D} _.
Arguments lo_filePath {D} _.
Arguments lo_scope {D} _.
Arguments lo_format {D} _.

(** The calls into [node:fs/promises]. *)
Inductive FsCall :=
| Mkdir (dir : string)
| AppendFile (path data : string).

(** How the file system answers a call: [None] when it succeeds, the thrown
    error, as a template literal prints it, when it fails. *)
Definition FsAnswers : Type := FsCall -> option string.

(** What a call of the logger does to the outside: the lines for
    [console.log] and [console.error], and the calls into the file system,
    each in order. *)
Record Effects := mkEffects {
  console_log : list string;
  console_error : list string;
  fs_calls : list FsCall;
}.

Definition no_effects : Effects := mkEffects [] [] [].

Definition and_then (e1 e2 : Effects) : Effects :=
  mkEffects (console_log e1 ++ console_log e2)
    (console_error e1 ++ console_error e2)
    (fs_calls e1 ++ fs_calls e2).

(** The three readings of [new Date().toISOString()] that one call of [log]
    can take, in the order of the calls: in [logToConsole], in
    [getDailyFilePath], and for the line written to the file. *)
Record Stamps := mkStamps {
  stamp_console : string;
  stamp_path : string;
  stamp_file : string;
}.

(** [getDailyFilePath(basePath)], with the reading of the clock. *)
Definition getDailyFilePath (iso : string) (basePath : string) : string :=
  let date := JsStr.show (head (JsStr.split ":" iso)) in
  let ext := JsStr.show (JsStr.pop (JsStr.split "." basePath)) in
  let baseName := JsStr.substring0 basePath (JsStr.lastIndexOf "." basePath) in
  baseName +:+ "-" +:+ date +:+ "." +:+ ext.

(** The directory of a path: [filePath.split('/').slice(0, -1).join('/')]. *)
Definition directory_of (filePath : string) : string :=
  JsStr.join "/" (JsStr.slice_init (JsStr.split "/" filePath)).

(** [logToFile(filePath, message)]: the directory is made when the path has
    one, then the message is appended; whatever fails inside the [try] ends
    it and becomes one line on [console.error]. *)
Definition logToFile (fs : FsAnswers) (filePath message : string) : Effects :=
  let failed (err : string) : list string :=
    [COLORS_error +:+ "[ERROR] Failed to write to " +:+ filePath +:+ ": " +:+ err
       +:+ COLORS_reset] in
  let dir := directory_of filePath in
  let made := if bool_decide (dir = "") then [] else [Mkdir dir] in
  match (if bool_decide (dir = "") then None else fs (Mkdir dir)) with
  | Some err => mkEffects [] (failed err) made
  | None =>
      match fs (AppendFile filePath message) with
      | Some err => mkEffects [] (failed err) (made ++ [AppendFile filePath message])
      | None => mkEffects [] [] (made ++ [AppendFile filePath message])
      end
  end.

(** [logToConsole(level, message, { request, responseTime, status })]: the
    line given to [console.log]. *)
Definition logToConsole {D} (iso : string) (level : LogLevel) (message : string)
    (ctx : LogCtx D) : string :=
  let color := COLORS_of level in
  let timestamp := iso in
  let method := line_method (ctx_request ctx) in
  let url := line_url (ctx_request ctx) in
  color +:+ "[" +:+ JsStr.toUpperCase (level_name level) +:+ "]" +:+ COLORS_reset
    +:+ " " +:+ COLORS_timestamp +:+ timestamp +:+ COLORS_reset
    +:+ " " +:+ COLORS_method +:+ method +:+ COLORS_reset
    +:+ " " +:+ COLORS_url +:+ url +:+ COLORS_reset
    +:+ " " +:+ COLORS_status +:+ JsStr.show (Js.toString <$> ctx_status ctx)
    +:+ COLORS_reset
    +:+ " " +:+ COLORS_responseTime
    +:+ JsStr.show (double_toFixed2 D <$> ctx_responseTime ctx) +:+ "ms"
    +:+ COLORS_reset
    +:+ (if bool_decide (message = "") then "" else ": " +:+ message).

(** [x || d] for a number that may be missing: 0 is as good as missing. *)
Definition or_number (x : option Z) (d : Z) : Z :=
  match x with
  | Some n => if bool_decide (n = 0) then d else n
  | None => d
  end.

(** The line feed that ends a line of the log file. *)
Definition line_feed : string := String (ascii_of_nat 10) "".

(** [Logger.log(level, message, ctx?)]. *)
Definition Logger_log_effects {D} (options : LoggerOptions D) (stamps : Stamps)
    (fs : FsAnswers) (level : LogLevel) (message : string) (ctx : option (LogCtx D))
  : Effects :=
  if negb (shouldLog level (default info (lo_logLevel options))) then no_effects
  else
    let formattedMessage := message in
    let printed :=
      mkEffects
        [logToConsole (stamp_console stamps) level formattedMessage
           (default (mkLogCtx localhost_request (Some (double_zero D)) (Some 200)) ctx)]
        [] [] in
    match lo_filePath options with
    | None => printed
    | Some filePath =>
        if bool_decide (filePath = "") then printed
        else
          let dailyFilePath := getDailyFilePath (stamp_path stamps) filePath in
          let fileMessage :=
            match ctx with
            | Some c =>
                stamp_file stamps +:+ " [" +:+ line_method (ctx_request c) +:+ "] "
                  +:+ line_url (ctx_request c) +:+ " "
                  +:+ Js.toString (or_number (ctx_status c) 200) +:+ " "
                  +:+ double_toFixed2 D
                        (match ctx_responseTime c with
                         | Some t => if double_truthy D t then t else double_zero D
                         | None => double_zero D
                         end)
                  +:+ "ms"
            | None => formattedMessage
            end in
          and_then printed (logToFile fs dailyFilePath (fileMessage +:+ line_feed))
    end.

(** ** The logger plugin *)

(** What [set.status] can hold: a number, or a name from Elysia's
    [StatusMap]. *)
Inductive StatusCode :=
| StatusNumber (n : Z)
| StatusName (name : string).

(** [normalizeStatusCode(code)]; Elysia's [StatusMap] is taken as given. *)
Definition normalizeStatusCode (StatusMap : string -> option Z)
    (code : option StatusCode) : option Z :=
  match code with
  | Some (StatusName name) => StatusMap name
  | Some (StatusNumber n) => Some n
  | None => Some 200
  end.

(** [defaultFormatter], with the reading of the clock that it takes. *)
Definition defaultFormatter {D} (iso : string) (request : RequestLine)
    (responseTime : double D) (status : Z) : string :=
  iso +:+ " [" +:+ line_method request +:+ "] " +:+ line_url request +:+ " "
    +:+ Js.toString status +:+ " " +:+ double_toFixed2 D responseTime +:+ "ms".

(** The state that [loggerPlugin] adds to the store of the application:
    [requestStartTime], and [logger] with the options that
    [new Logger(...)] was given. *)
Record LoggerStore (D : Doubles) := mkLoggerStore {
  requestStartTime : double D;
  store_logger : LoggerOptions D;
}.
Arguments mkLoggerStore {D} _ _.
Arguments requestStartTime {D} _.
Arguments store_logger {D} _.

(** [loggerPlugin(options)], the part that [.state(...)] sets up: the store,
    with the logger made from the destructured options and their defaults.
    The hooks that the plugin registers are listed in [loggerPlugin_hooks]. *)
Definition loggerPlugin {D} (options : LoggerOptions D) : LoggerStore D :=
  mkLoggerStore (double_zero D)
    (mkLoggerOptions
       (Some (default info (lo_logLevel options)))
       (Some (default "./logs/app.log" (lo_filePath options)))
       (Some (default scope_scoped (lo_scope options)))
       (Some (default defaultFormatter (lo_format options)))).

(** The four kinds of hook that the plugin registers. *)
Inductive HookName := hook_onRequest | hook_onAfterResponse | hook_onError | hook_onStop.

(** [loggerPlugin(options)], the registrations, in their order: each hook
    with the [{ as: ... }] that it is registered with, if any.  The scope is
    the one of the options, [scoped] by default; it is Elysia that decides,
    from it, for which routes [onAfterResponse] and [onError] run. *)
Definition loggerPlugin_hooks {D} (options : LoggerOptions D)
    : list (HookName * option Scope) :=
  let scope := default scope_scoped (lo_scope options) in
  [(hook_onRequest, None); (hook_onAfterResponse, Some scope);
   (hook_onError, Some scope); (hook_onStop, None)].

(** The [onRequest] hook of the logger plugin. *)
Definition logger_onRequest {D} (now : double D) (store : LoggerStore D) : LoggerStore D :=
  mkLoggerStore now (store_logger store).

(** The [onAfterResponse] hook: [now1] and [now2] are the two readings of
    [performance.now()], in the order in which the hook takes them. *)
Definition onAfterResponse {D} (StatusMap : string -> option Z) (stamps : Stamps)
    (fs : FsAnswers) (now1 now2 : double D) (request : RequestLine)
    (set_status : option StatusCode) (store : LoggerStore D) : Effects :=
  let responseTime :=
    double_minus D now1
      (if double_truthy D (requestStartTime store) then requestStartTime store
       else now2) in
  let status := or_number (normalizeStatusCode StatusMap set_status) 200 in
  let level :=
    if bool_decide (status >= 500) then error
    else if bool_decide (status >= 400) then warn else info in
  Logger_log_effects (store_logger store) stamps fs level ""
    (Some (mkLogCtx request (Some responseTime) (Some status))).

(** The [onError] hook. *)
Definition onError {D} (StatusMap : string -> option Z) (stamps : Stamps)
    (fs : FsAnswers) (now1 now2 : double D) (request : RequestLine)
    (set_status : option StatusCode) (store : LoggerStore D) : Effects :=
  let responseTime :=
    double_minus D now1
      (if double_truthy D (requestStartTime store) then requestStartTime store
       else now2) in
  let status := or_number (normalizeStatusCode StatusMap set_status) 500 in
  Logger_log_effects (store_logger store) stamps fs error ""
    (Some (mkLogCtx request (Some responseTime) (Some status))).

(** ** Sample inputs for the logger *)

(** Doubles that are whole milliseconds: enough to run the logger on sample
    values. *)
Definition whole_milliseconds : Doubles :=
  mkDoubles Z 0 (fun n => negb (n =? 0)) Z.sub (fun n => Js.toString n +:+ ".00").

Definition sample_stamps : Stamps :=
  mkStamps "2025-05-29T00:12:13.456Z" "2025-05-29T00:12:13.457Z"
    "2025-05-29T00:12:13.458Z".

(** A file system on which every call succeeds. *)
Definition fs_ok : FsAnswers := fun _ => None.

Definition sample_line : RequestLine := mkRequestLine "GET" "http://localhost:3001/".

(** [loggerPlugin()] without options. *)
Definition no_logger_options : LoggerOptions whole_milliseconds :=
  mkLoggerOptions None None None None.

(** A plugin that lets nothing through, and whose error body is made by a
    function that throws. *)
Definition throwing_body_plugin : Plugin :=
  destructure
    (mkOptions (Some 0) (Some 1000) None
       (Some (Producer (fun _ => Throw "no body"))) None).

(** * Properties *)

(** ** The primitives on sample values *)

Example trim_then_lower : Js.toLowerCase (Js.trim "  X-Real-IP ") = "x-real-ip".
Proof. reflexivity. Qed.

Example trim_keeps_inner_space : Js.trim " a b  " = "a b".
Proof. reflexivity. Qed.

Example toString_samples :
  Js.toString 0 = "0" /\ Js.toString 429 = "429" /\ Js.toString (-5) = "-5".
Proof. repeat split. Qed.

Example ceil_div_samples :
  Js.ceil_div 1000 1000 = 1 /\ Js.ceil_div 1001 1000 = 2 /\
  Js.ceil_div 0 1000 = 0 /\ Js.ceil_div (-500) 1000 = 0.
Proof. repeat split. Qed.

Example default_key_first_match :
  defaultKeyGenerator
    (mkRequest [("accept", "*/*"); ("forwarded", "for=198.51.100.1");
                ("x-real-ip", "203.0.113.7")])
  = "for=198.51.100.1".
Proof. reflexivity. Qed.

(** [Js.toString] tells integers apart. *)
Lemma toString_inj (m n : Z) : Js.toString m = Js.toString n -> m = n.
Proof. unfold Js.toString. apply (inj pretty). Qed.

(** [rateLimitPlugin()] without options: 100 requests per minute, keyed by
    the default key generator, nothing skipped. *)
Lemma default_configuration :
  exists p ctx,
    rateLimitPlugin no_options = Normal (p, ctx) /\
    maxRequests p = 100 /\ duration p = 60000 /\
    errorResponse p = Static "Too many requests" /\
    (forall request,
       keyGenerator p request = Normal (defaultKeyGenerator request) /\
       forall key, skip p request key = Normal false).
Proof. do 2 eexists. repeat split. Qed.

(** ** The cache *)

Section cache_facts.
Import LRUCache.
Implicit Types (k : string) (l : list Item) (it : Item) (c : LRUCache.t).

Lemma find_item_key k l it : find_item k l = Some it -> item_key it = k.
Proof.
  unfold find_item. intros H. apply List.find_some in H as [_ H].
  unfold has_key in H. by apply bool_decide_eq_true in H.
Qed.

Lemma find_item_remove_eq k l : find_item k (remove k l) = None.
Proof.
  induction l as [|x l IH]; [done|].
  cbn. destruct (has_key k x) eqn:E; cbn; [done|]. by rewrite E.
Qed.

Lemma find_item_remove_ne k k' l :
  k <> k' -> find_item k (remove k' l) = find_item k l.
Proof.
  intros Hne. induction l as [|x l IH]; [done|].
  cbn. destruct (has_key k' x) eqn:E'; cbn.
  - destruct (has_key k x) eqn:E; [|done].
    unfold has_key in *. apply bool_decide_eq_true in E, E'. congruence.
  - destruct (has_key k x); [done|]. exact IH.
Qed.

Lemma find_item_snoc k l it :
  find_item k (l ++ [it]) =
  match find_item k l with
  | Some x => Some x
  | None => if has_key k it then Some it else None
  end.
Proof.
  induction l as [|x l IH]; cbn; [done|].
  destruct (has_key k x); [done|]. exact IH.
Qed.

Lemma find_item_evict k l : find_item k l = None -> find_item k (evict l) = None.
Proof.
  destruct l as [|x l]; cbn; [done|]. by destruct (has_key k x).
Qed.

Lemma length_remove k l : (length (remove k l) <= length l)%nat.
Proof. unfold remove. apply List.filter_length_le. Qed.

Lemma length_remove_found k l it :
  find_item k l = Some it -> (S (length (remove k l)) <= length l)%nat.
Proof.
  induction l as [|x l IH]; cbn; [done|].
  destruct (has_key k x) eqn:E; cbn.
  - intros _. pose proof (length_remove k l). unfold remove in *. lia.
  - intros H. specialize (IH H). unfold remove in *. lia.
Qed.

(** Reading a key finds it exactly when it is held and its time-to-live
    has not run out. *)
Lemma get_value k tick c :
  (get k tick c).1 =
  match find_item k (items c) with
  | Some it => if isStale c tick it then None else Some (item_value it)
  | None => None
  end.
Proof.
  unfold get. destruct (find_item k (items c)); [|done].
  by destruct (isStale c tick _).
Qed.

Lemma get_max_ttl k tick c :
  max (get k tick c).2 = max c /\ ttl (get k tick c).2 = ttl c.
Proof.
  unfold get. destruct (find_item k (items c)); [|done].
  by destruct (isStale c tick _).
Qed.

Lemma set_max_ttl k v tick c :
  max (set k v tick c) = max c /\ ttl (set k v tick c) = ttl c.
Proof. unfold set. by destruct (find_item k (items c)). Qed.

Lemma get_length k tick c :
  (length (items (get k tick c).2) <= length (items c))%nat.
Proof.
  unfold get. destruct (find_item k (items c)) as [it|] eqn:E; [|done].
  pose proof (length_remove_found _ _ _ E).
  destruct (isStale c tick it); cbn; rewrite ?length_app; cbn; lia.
Qed.

(** A read of one key leaves what is held for another key as it is. *)
Lemma get_other k k' tick c :
  k <> k' -> find_item k (items (get k' tick c).2) = find_item k (items c).
Proof.
  intros Hne. unfold get.
  destruct (find_item k' (items c)) as [it|] eqn:E; [|done].
  destruct (isStale c tick it); cbn [fst snd items].
  - by apply find_item_remove_ne.
  - rewrite find_item_snoc, find_item_remove_ne by done.
    destruct (find_item k (items c)); [done|].
    apply find_item_key in E. unfold has_key.
    rewrite bool_decide_eq_false_2; [done|congruence].
Qed.

(** A read that finds the key keeps it, with its value and its instant. *)
Lemma get_found k tick c it :
  find_item k (items c) = Some it -> isStale c tick it = false ->
  find_item k (items (get k tick c).2) = Some it.
Proof.
  intros E Hs. unfold get. rewrite E, Hs. cbn [fst snd items].
  rewrite find_item_snoc, find_item_remove_eq.
  apply find_item_key in E. unfold has_key. by rewrite bool_decide_eq_true_2.
Qed.

(** A read that misses leaves the key missing. *)
Lemma get_missed k tick c :
  (get k tick c).1 = None -> find_item k (items (get k tick c).2) = None.
Proof.
  unfold get. destruct (find_item k (items c)) as [it|] eqn:E; [|done].
  destruct (isStale c tick it); cbn [fst snd items]; [|done].
  intros _. apply find_item_remove_eq.
Qed.

(** After a write the key holds the value written, armed at the instant of
    the write. *)
Lemma set_found k v tick c :
  find_item k (items (set k v tick c)) = Some (mkItem k v tick).
Proof.
  unfold set. destruct (find_item k (items c)) as [it|] eqn:E; cbn [fst snd items].
  - rewrite find_item_snoc, find_item_remove_eq. unfold has_key. cbn.
    by rewrite bool_decide_eq_true_2.
  - rewrite find_item_snoc. case_bool_decide.
    + rewrite E. unfold has_key. cbn. by rewrite bool_decide_eq_true_2.
    + rewrite (find_item_evict _ _ E). unfold has_key. cbn.
      by rewrite bool_decide_eq_true_2.
Qed.

(** A write to one key leaves another key as it is, unless it had to evict. *)
Lemma set_other k k' v tick c :
  k <> k' ->
  (is_Some (find_item k' (items c)) \/ Z.of_nat (length (items c)) < max c) ->
  find_item k (items (set k' v tick c)) = find_item k (items c).
Proof.
  intros Hne Hroom. unfold set.
  assert (has_key k (mkItem k' v tick) = false) as Hk.
  { unfold has_key. cbn. rewrite bool_decide_eq_false_2; [done|congruence]. }
  destruct (find_item k' (items c)) as [it|] eqn:E; cbn [fst snd items].
  - rewrite find_item_snoc, find_item_remove_ne, Hk by done.
    by destruct (find_item k (items c)).
  - destruct Hroom as [[? ?]|Hroom]; [done|].
    rewrite bool_decide_eq_true_2 by done.
    rewrite find_item_snoc, Hk. by destruct (find_item k (items c)).
Qed.

Lemma set_length k v tick c :
  (is_Some (find_item k (items c)) \/ Z.of_nat (length (items c)) < max c) ->
  (length (items (set k v tick c)) <=
     match find_item k (items c) with
     | Some _ => length (items c)
     | None => S (length (items c))
     end)%nat.
Proof.
  intros Hroom. unfold set.
  destruct (find_item k (items c)) as [it|] eqn:E; cbn [fst snd items].
  - pose proof (length_remove_found _ _ _ E). rewrite length_app. cbn. lia.
  - destruct Hroom as [[? ?]|Hroom]; [done|].
    rewrite bool_decide_eq_true_2 by done. rewrite length_app. cbn. lia.
Qed.

End cache_facts.

(** ** Rounding up to seconds *)

(** [Js.ceil_div n d] is the least integer [q] with [n <= d * q]. *)
Lemma ceil_div_spec n d :
  0 < d -> d * (Js.ceil_div n d - 1) < n <= d * Js.ceil_div n d.
Proof.
  intros Hd. unfold Js.ceil_div.
  pose proof (Z.div_mod (- n) d ltac:(lia)) as Hdiv.
  pose proof (Z.mod_pos_bound (- n) d Hd) as Hmod.
  nia.
Qed.

(** ** One run of the hook *)

Section hook_facts.
Implicit Types (p : Plugin) (clock : Clock) (request : Request) (key : string).
Implicit Types (s : HookState) (sh : Shared).

(** The run of [admission], spelled out: the entry [e'] it writes, and what
    it leaves in the cache, in [set], in the logger and as its result. *)
Lemma admission_run p clock request key s :
  let now := date_now clock in
  let tick := cache_now clock in
  let read := DefaultRateLimitContext.get key tick (context s) in
  let out := admission p clock request key s in
  let limit_headers (e : Entry) : gmap string string :=
    <["RateLimit-Reset" := Js.toString (Js.ceil_div (reset e) 1000)]>
      (<["RateLimit-Remaining" := Js.toString (Js.max 0 (maxRequests p - count e))]>
         (<["RateLimit-Limit" := Js.toString (maxRequests p)]> (set_headers (set s)))) in
  exists e',
    match read.1 with
    | None => e' = mkEntry 1 (now + duration p)
    | Some e =>
        e' = if bool_decide (now > reset e)
             then mkEntry 1 (now + duration p)
             else mkEntry (count e + 1) (reset e)
    end /\
    context out.2 = DefaultRateLimitContext.set key e' tick read.2 /\
    if bool_decide (count e' > maxRequests p) then
      set out.2 =
        mkSet (<["Retry-After" := Js.toString (Js.ceil_div (duration p) 1000)]>
                 (limit_headers e')) (Some 429) /\
      logger out.2 =
        Logger_log warn ("Rate limit exceeded for key: " +:+ key) (logger s) /\
      out.1 = match errorResponse p with
              | Static body => Normal (Some body)
              | Producer f =>
                  match f request with
                  | Normal body => Normal (Some body)
                  | Throw e => Throw e
                  end
              end
    else
      set out.2 = mkSet (limit_headers e') (set_status (set s)) /\
      logger out.2 = logger s /\
      out.1 = Normal None.
Proof.
  intros now tick read out limit_headers. subst out read limit_headers.
  unfold admission, mbind, hook_bind, bind, context_get.
  fold now tick.
  destruct (DefaultRateLimitContext.get key tick (context s)) as [found ctx1].
  set (e0 := match found with
             | None => mkEntry 0 (now + duration p)
             | Some e => if bool_decide (now > reset e)
                         then mkEntry 0 (now + duration p) else e
             end).
  exists (mkEntry (count e0 + 1) (reset e0)).
  split.
  { subst e0. cbn [fst]. destruct found as [e|]; [|done]. by case_bool_decide. }
  cbn [fst snd count reset context set logger context_set set_header
       set_status_to logger_log].
  case_bool_decide.
  - cbn. destruct (errorResponse p) as [body|f]; cbn; [done|].
    unfold call. by destruct (f request).
  - done.
Qed.

(** The hook on a request that is counted. *)
Lemma handle_counted p sh clock request (set0 : SetCtx) key :
  keyGenerator p request = Normal key ->
  skip p request key = Normal false ->
  handle p sh clock request set0 =
  let out := admission p clock request key
               (mkState (shared_context sh) set0 (shared_logger sh)) in
  (mkOutcome out.1 (set out.2), mkShared (context out.2) (logger out.2)).
Proof.
  intros Hk Hs. unfold handle, onRequest, mbind, hook_bind, bind, call.
  rewrite Hk, Hs. by destruct (admission _ _ _ _ _).
Qed.

(** The hook on a request that is not counted: nothing changes. *)
Lemma handle_uncounted p sh clock request (set0 : SetCtx) :
  (forall key, keyGenerator p request = Normal key ->
               skip p request key <> Normal false) ->
  exists r, handle p sh clock request set0 = (mkOutcome r set0, sh).
Proof.
  intros H. unfold handle, onRequest, mbind, hook_bind, bind, call.
  destruct (keyGenerator p request) as [key|e]; cbn.
  - specialize (H key eq_refl).
    destruct (skip p request key) as [[]|e]; cbn; destruct sh; eauto.
    congruence.
  - destruct sh; eauto.
Qed.

End hook_facts.

(** ** The hook on a counted request *)

Section counted_request.
Context (p : Plugin) (sh : Shared) (clock : Clock) (request : Request).
Context (set0 : SetCtx) (key : string).
Hypothesis derived : keyGenerator p request = Normal key.
Hypothesis not_skipped : skip p request key = Normal false.

(** Everything the hook does with a counted request, in terms of the entry
    [e'] that it writes back. *)
Lemma counted_run :
  let now := date_now clock in
  let out := handle p sh clock request set0 in
  exists e',
    match lookup_now key clock sh with
    | None => e' = mkEntry 1 (now + duration p)
    | Some e =>
        e' = if bool_decide (now > reset e)
             then mkEntry 1 (now + duration p)
             else mkEntry (count e + 1) (reset e)
    end /\
    stored key out.2 = Some e' /\
    header "RateLimit-Limit" out.1 = Some (Js.toString (maxRequests p)) /\
    header "RateLimit-Remaining" out.1 =
      Some (Js.toString (Js.max 0 (maxRequests p - count e'))) /\
    header "RateLimit-Reset" out.1 = Some (Js.toString (Js.ceil_div (reset e') 1000)) /\
    if bool_decide (count e' > maxRequests p) then
      ~ proceeds out.1 /\
      status out.1 = Some 429 /\
      header "Retry-After" out.1 = Some (Js.toString (Js.ceil_div (duration p) 1000))
    else
      proceeds out.1 /\
      status out.1 = set_status set0 /\
      header "Retry-After" out.1 = set_headers set0 !! "Retry-After".
Proof.
  intros now out. subst out. rewrite (handle_counted _ _ _ _ _ _ derived not_skipped).
  cbn zeta.
  destruct (admission_run p clock request key
              (mkState (shared_context sh) set0 (shared_logger sh)))
    as (e' & He' & Hctx & Hrest).
  cbn [context set logger] in He', Hctx, Hrest.
  exists e'. split; [exact He'|]. split.
  { unfold stored, LRUCache.peek. cbn [fst snd shared_context].
    rewrite Hctx. unfold DefaultRateLimitContext.set. cbn.
    by rewrite set_found. }
  unfold header, status, proceeds. cbn [fst snd response result].
  case_bool_decide; destruct Hrest as (Hset & _ & Hres); rewrite Hset;
    cbn [set_headers set_status].
  - repeat split; try by simplify_map_eq.
    rewrite Hres. destruct (errorResponse p) as [|f]; [done|].
    by destruct (f request).
  - repeat split; try done; by simplify_map_eq.
Qed.

End counted_request.

(** ** Window accounting *)

(** C1. On every request that is not skipped: when [context.get] finds no
    entry for the derived key, or [now] is strictly greater than the entry's
    [reset], a fresh window with [count = 0] and [reset = now + duration] is
    started; the count is then incremented by one (otherwise the entry found
    is incremented); the entry is stored; and the request proceeds exactly
    when the resulting count is at most [maxRequests]. *)
Theorem window_accounting p sh clock request (set0 : SetCtx) key :
  keyGenerator p request = Normal key ->
  skip p request key = Normal false ->
  let now := date_now clock in
  let found := lookup_now key clock sh in
  let out := handle p sh clock request set0 in
  exists e',
    stored key out.2 = Some e' /\
    (found = None \/ (exists e, found = Some e /\ now > reset e) ->
     e' = mkEntry (0 + 1) (now + duration p)) /\
    (forall e, found = Some e -> ~ now > reset e ->
     e' = mkEntry (count e + 1) (reset e)) /\
    (proceeds out.1 <-> count e' <= maxRequests p).
Proof.
  intros Hk Hs now found out.
  destruct (counted_run p sh clock request set0 key Hk Hs)
    as (e' & He' & Hst & _ & _ & _ & Hverdict).
  fold now found out in He', Hst, Hverdict.
  exists e'. split; [exact Hst|]. repeat split.
  - intros [Hnone|(e & Hsome & Hlate)].
    + by rewrite Hnone in He'.
    + rewrite Hsome in He'. by rewrite bool_decide_eq_true_2 in He'.
  - intros e Hsome Hin. rewrite Hsome in He'.
    by rewrite bool_decide_eq_false_2 in He'.
  - intros Hgo. case_bool_decide; [|lia]. by destruct Hverdict as [Hno _].
  - intros Hle. case_bool_decide; [lia|]. by destruct Hverdict as [Hgo _].
Qed.

Lemma window_accounting_witness :
  keyGenerator sample_plugin sample_request = Normal sample_key /\
  skip sample_plugin sample_request sample_key = Normal false /\
  exists e',
    stored sample_key
      (handle sample_plugin fresh_shared (at_ms 0) sample_request blank_set).2
    = Some e' /\
    e' = mkEntry 1 1000.
Proof.
  split; [reflexivity|]. split; [reflexivity|].
  destruct (window_accounting sample_plugin fresh_shared (at_ms 0)
              sample_request blank_set sample_key eq_refl eq_refl)
    as (e' & Hst & Hfresh & _).
  exists e'. split; [exact Hst|]. apply Hfresh. left. reflexivity.
Defined.

(** C2. The request that brings the count to exactly [maxRequests]
    proceeds; a request that brings it above is stopped with status 429 and
    a [Retry-After] header; inside a window the count goes up by one on
    every request, also on those that are stopped and however far above
    [maxRequests] it already is; and the incremented entry is in the cache
    after the hook, whatever the verdict. *)
Theorem limit_boundary_no_clamping p sh clock request (set0 : SetCtx) key :
  keyGenerator p request = Normal key ->
  skip p request key = Normal false ->
  let found := lookup_now key clock sh in
  let out := handle p sh clock request set0 in
  exists e',
    stored key out.2 = Some e' /\
    (forall e, found = Some e -> date_now clock <= reset e ->
     count e' = count e + 1) /\
    (count e' = maxRequests p -> proceeds out.1) /\
    (count e' > maxRequests p ->
     ~ proceeds out.1 /\
     status out.1 = Some 429 /\
     is_Some (header "Retry-After" out.1)).
Proof.
  intros Hk Hs found out.
  destruct (counted_run p sh clock request set0 key Hk Hs)
    as (e' & He' & Hst & _ & _ & _ & Hverdict).
  fold found out in He', Hst, Hverdict.
  exists e'. split; [exact Hst|]. repeat split.
  - intros e Hsome Hin. rewrite Hsome in He'.
    rewrite bool_decide_eq_false_2 in He' by lia. by subst e'.
  - intros Heq. case_bool_decide; [lia|]. by destruct Hverdict as [Hgo _].
  - case_bool_decide; [|lia]. by destruct Hverdict as [Hno _].
  - case_bool_decide; [|lia]. by destruct Hverdict as (_ & Hst429 & _).
  - case_bool_decide; [|lia]. destruct Hverdict as (_ & _ & Hra).
    rewrite Hra. by eexists.
Qed.

Lemma limit_boundary_no_clamping_witness :
  keyGenerator sample_plugin sample_request = Normal sample_key /\
  skip sample_plugin sample_request sample_key = Normal false /\
  let out := handle sample_plugin (after_requests 4) (at_ms 0) sample_request blank_set in
  exists e',
    stored sample_key out.2 = Some e' /\ count e' = 5 /\ status out.1 = Some 429.
Proof.
  split; [reflexivity|]. split; [reflexivity|].
  destruct (limit_boundary_no_clamping sample_plugin (after_requests 4) (at_ms 0)
              sample_request blank_set sample_key eq_refl eq_refl)
    as (e' & Hst & Hinc & _ & Hover).
  assert (count e' = 5) as Hcount.
  { apply (Hinc (mkEntry 4 1000)); [reflexivity|discriminate]. }
  exists e'. split; [exact Hst|]. split; [exact Hcount|].
  apply Hover. rewrite Hcount. reflexivity.
Defined.

(** ** Response headers *)

(** C4. On every request that is not skipped, proceeding or not, the hook
    sets [RateLimit-Limit], [RateLimit-Remaining] and [RateLimit-Reset] to
    the decimal strings of [maxRequests], of [max(0, maxRequests - count)]
    and of [reset / 1000] rounded up, for the entry it has just stored; it
    sets [Retry-After] to the decimal string of [duration / 1000] rounded up
    when the request is stopped, and leaves [Retry-After] as it was when the
    request proceeds. *)
Theorem header_postcondition p sh clock request (set0 : SetCtx) key :
  keyGenerator p request = Normal key ->
  skip p request key = Normal false ->
  let out := handle p sh clock request set0 in
  exists e',
    stored key out.2 = Some e' /\
    header "RateLimit-Limit" out.1 = Some (Js.toString (maxRequests p)) /\
    header "RateLimit-Remaining" out.1 =
      Some (Js.toString (Z.max 0 (maxRequests p - count e'))) /\
    (exists secs,
       header "RateLimit-Reset" out.1 = Some (Js.toString secs) /\
       1000 * (secs - 1) < reset e' <= 1000 * secs) /\
    (~ proceeds out.1 ->
     exists secs,
       header "Retry-After" out.1 = Some (Js.toString secs) /\
       1000 * (secs - 1) < duration p <= 1000 * secs) /\
    (proceeds out.1 ->
     header "Retry-After" out.1 = set_headers set0 !! "Retry-After").
Proof.
  intros Hk Hs out.
  destruct (counted_run p sh clock request set0 key Hk Hs)
    as (e' & _ & Hst & Hlimit & Hremaining & Hreset & Hverdict).
  fold out in Hst, Hlimit, Hremaining, Hreset, Hverdict.
  exists e'. split; [exact Hst|]. split; [exact Hlimit|].
  split; [exact Hremaining|]. split; [|split].
  - eexists. split; [exact Hreset|]. by apply ceil_div_spec.
  - intros Hno. case_bool_decide; destruct Hverdict as (Hv & _ & Hra); [|done].
    eexists. split; [exact Hra|]. by apply ceil_div_spec.
  - intros Hgo. case_bool_decide; destruct Hverdict as (Hv & _ & Hra); done.
Qed.

Lemma header_postcondition_witness :
  keyGenerator sample_plugin sample_request = Normal sample_key /\
  skip sample_plugin sample_request sample_key = Normal false /\
  let out := handle sample_plugin (after_requests 3) (at_ms 0) sample_request blank_set in
  header "RateLimit-Limit" out.1 = Some "3" /\
  header "RateLimit-Remaining" out.1 = Some "0" /\
  header "RateLimit-Reset" out.1 = Some "1" /\
  header "Retry-After" out.1 = Some "1".
Proof.
  split; [reflexivity|]. split; [reflexivity|].
  destruct (header_postcondition sample_plugin (after_requests 3) (at_ms 0)
              sample_request blank_set sample_key eq_refl eq_refl)
    as (e' & _ & Hlimit & _).
  split; [exact Hlimit|]. repeat split; reflexivity.
Defined.

(** ** Requests that are not counted *)

(** C5. When the skip predicate answers [true], the hook ends with
    [undefined] and leaves everything as it found it: the cache is the same
    (it was neither read, which could drop or reorder items, nor written),
    so the entry of every key is unchanged; [set] has the headers and the
    status it had; nothing is logged. *)
Theorem skip_bypass_frame p sh clock request (set0 : SetCtx) key :
  keyGenerator p request = Normal key ->
  skip p request key = Normal true ->
  let out := handle p sh clock request set0 in
  out.2 = sh /\
  response out.1 = set0 /\
  proceeds out.1 /\
  (forall k, stored k out.2 = stored k sh).
Proof.
  intros Hk Hs out. subst out.
  unfold handle, onRequest, mbind, hook_bind, bind, call.
  rewrite Hk, Hs. cbn. by destruct sh.
Qed.

Lemma skip_bypass_frame_witness :
  keyGenerator trusting_plugin sample_request = Normal sample_key /\
  skip trusting_plugin sample_request sample_key = Normal true /\
  (handle trusting_plugin (after_requests 2) (at_ms 7) sample_request blank_set).2
  = after_requests 2.
Proof.
  split; [reflexivity|]. split; [reflexivity|].
  apply (skip_bypass_frame trusting_plugin (after_requests 2) (at_ms 7)
           sample_request blank_set sample_key eq_refl eq_refl).
Defined.

(** C7. When the key generator throws, or the skip predicate throws, the
    hook ends with that same exception, and leaves everything as it found
    it: the cache (no read, no increment, no write, for any key), the
    headers and the status in [set], and the logger. *)
Theorem upstream_failure_atomicity p sh clock request (set0 : SetCtx) e :
  (keyGenerator p request = Throw e \/
   exists key, keyGenerator p request = Normal key /\
               skip p request key = Throw e) ->
  let out := handle p sh clock request set0 in
  result out.1 = Throw e /\
  out.2 = sh /\
  response out.1 = set0 /\
  (forall k, stored k out.2 = stored k sh).
Proof.
  intros H out. subst out.
  unfold handle, onRequest, mbind, hook_bind, bind, call.
  destruct H as [Hk|(key & Hk & Hs)].
  - rewrite Hk. cbn. by destruct sh.
  - rewrite Hk, Hs. cbn. by destruct sh.
Qed.

Lemma upstream_failure_atomicity_witness :
  keyGenerator failing_plugin sample_request = Throw "no client address" /\
  let out := handle failing_plugin (after_requests 2) (at_ms 7) sample_request blank_set in
  result out.1 = Throw "no client address" /\ out.2 = after_requests 2.
Proof.
  split; [reflexivity|].
  destruct (upstream_failure_atomicity failing_plugin (after_requests 2) (at_ms 7)
              sample_request blank_set "no client address" (or_introl eq_refl))
    as (Hres & Hsh & _).
  split; [exact Hres|exact Hsh].
Defined.

(** ** The end of a window *)

(** C6, as stated, fails.  The sample client's window was opened at
    millisecond 0 and has [reset = 1000]; a request arriving exactly at
    millisecond 1000 is counted in that window: the count becomes 2, and no
    fresh window with count 1 is started. *)
Lemma window_boundary_counterexample :
  let sh := after_requests 1 in
  let out := handle sample_plugin sh (at_ms 1000) sample_request blank_set in
  lookup_now sample_key (at_ms 1000) sh = Some (mkEntry 1 1000) /\
  date_now (at_ms 1000) = reset (mkEntry 1 1000) /\
  stored sample_key out.2 = Some (mkEntry 2 1000) /\
  stored sample_key out.2 <> Some (mkEntry 1 (1000 + duration sample_plugin)).
Proof. repeat split; [reflexivity..|]. vm_compute. discriminate. Qed.

(** C6, amended.  The hook compares with [now > entry.reset], so the window
    of a stored entry is closed on the right: every request that finds the
    entry and comes at [now <= reset], the instant [reset] itself included,
    is counted in the old window (the count goes up by one, [reset] stays);
    a fresh window, with count 1 and [reset = now + duration], is started by
    the requests arriving strictly later than [reset], and by no other. *)
Theorem window_boundary_inclusive p sh clock request (set0 : SetCtx) key e :
  keyGenerator p request = Normal key ->
  skip p request key = Normal false ->
  lookup_now key clock sh = Some e ->
  let now := date_now clock in
  let out := handle p sh clock request set0 in
  (now = reset e -> stored key out.2 = Some (mkEntry (count e + 1) (reset e))) /\
  (now <= reset e -> stored key out.2 = Some (mkEntry (count e + 1) (reset e))) /\
  (now > reset e -> stored key out.2 = Some (mkEntry 1 (now + duration p))).
Proof.
  intros Hk Hs Hfound now out.
  destruct (counted_run p sh clock request set0 key Hk Hs)
    as (e' & He' & Hst & _).
  fold now out in He', Hst. rewrite Hfound in He'. rewrite Hst.
  split; [|split]; intros Hnow.
  - rewrite bool_decide_eq_false_2 in He' by lia. by subst e'.
  - rewrite bool_decide_eq_false_2 in He' by lia. by subst e'.
  - rewrite bool_decide_eq_true_2 in He' by lia. by subst e'.
Qed.

Lemma window_boundary_inclusive_witness :
  keyGenerator sample_plugin sample_request = Normal sample_key /\
  skip sample_plugin sample_request sample_key = Normal false /\
  lookup_now sample_key (at_ms 1000) (after_requests 1) = Some (mkEntry 1 1000) /\
  stored sample_key
    (handle sample_plugin (after_requests 1) (at_ms 1000) sample_request blank_set).2
  = Some (mkEntry 2 1000).
Proof.
  split; [reflexivity|]. split; [reflexivity|]. split; [reflexivity|].
  apply (window_boundary_inclusive sample_plugin (after_requests 1) (at_ms 1000)
           sample_request blank_set sample_key (mkEntry 1 1000)
           eq_refl eq_refl eq_refl).
  reflexivity.
Defined.

(** ** Creating the plugin *)

(** C3, as stated, fails.  A window of two hours is longer than the
    cache's time-to-live of one hour, and [rateLimitPlugin] accepts it. *)
Lemma ttl_below_duration_counterexample :
  exists p ctx,
    rateLimitPlugin (mkOptions None (Some 7200000) None None None) = Normal (p, ctx) /\
    duration p = 7200000 /\
    LRUCache.ttl (DefaultRateLimitContext.cache ctx) = 3600000 /\
    LRUCache.ttl (DefaultRateLimitContext.cache ctx) < duration p.
Proof. do 2 eexists. repeat split. Qed.

(** C3, amended.  [rateLimitPlugin] validates nothing: it accepts every
    option record; the cache it creates always holds at most 10000 entries
    with a time-to-live of 3600000 ms, whatever the options say; the window
    is the [duration] option, or 60000 ms by default.  So the time-to-live
    is at least the window exactly for the configurations whose duration is
    at most 3600000 ms, the default among them. *)
Theorem construction_accepts_every_configuration (options : RateLimitOptions) :
  exists p ctx,
    rateLimitPlugin options = Normal (p, ctx) /\
    LRUCache.max (DefaultRateLimitContext.cache ctx) = 10000 /\
    LRUCache.ttl (DefaultRateLimitContext.cache ctx) = 3600000 /\
    LRUCache.items (DefaultRateLimitContext.cache ctx) = [] /\
    duration p = default 60000 (opt_duration options) /\
    (LRUCache.ttl (DefaultRateLimitContext.cache ctx) >= duration p <->
     default 60000 (opt_duration options) <= 3600000).
Proof.
  do 2 eexists. split; [reflexivity|].
  unfold destructure. cbn [fst snd duration DefaultRateLimitContext.new
    DefaultRateLimitContext.cache LRUCache.create LRUCache.max LRUCache.ttl
    LRUCache.items].
  destruct (opt_duration options) as [d|]; cbn [default];
    repeat split; try reflexivity; lia.
Qed.

(** What the missing validation lets happen: with a window of two hours, a
    client that comes back after ninety minutes, inside its window, finds
    its entry expired in the cache and starts again at count 1. *)
Lemma ttl_eviction_mid_window :
  let sh :=
    (handle two_hour_plugin fresh_shared (at_ms 1000) sample_request blank_set).2 in
  let out := handle two_hour_plugin sh (at_ms 5401000) sample_request blank_set in
  stored sample_key sh = Some (mkEntry 1 7201000) /\
  lookup_now sample_key (at_ms 5401000) sh = None /\
  stored sample_key out.2 = Some (mkEntry 1 12601000).
Proof.
  cbn zeta. split; [vm_compute; reflexivity|].
  split; vm_compute; reflexivity.
Qed.

(** ** A scenario *)

(** C8. With [maxRequests = 3] and [duration = 1000]: four requests of one
    client at millisecond 0 proceed, proceed, proceed and are stopped; the
    fourth response has [RateLimit-Remaining] "0", status 429 and
    [Retry-After] "1"; a fifth request of the same client at millisecond
    1001 proceeds with [RateLimit-Remaining] "2". *)
Theorem concrete_scenario :
  exists p ctx,
    rateLimitPlugin (mkOptions (Some 3) (Some 1000) None None None) = Normal (p, ctx) /\
    let arrivals :=
      [(at_ms 0, sample_request); (at_ms 0, sample_request);
       (at_ms 0, sample_request); (at_ms 0, sample_request);
       (at_ms 1001, sample_request)] in
    let outs := (serve p blank_set arrivals (mkShared ctx (mkLogger None []))).1 in
    Forall (fun ar => keyGenerator p ar.2 = Normal sample_key) arrivals /\
    result <$> outs =
      [Normal None; Normal None; Normal None;
       Normal (Some "Too many requests"); Normal None] /\
    header "RateLimit-Remaining" <$> outs =
      [Some "2"; Some "1"; Some "0"; Some "0"; Some "2"] /\
    status <$> outs = [None; None; None; Some 429; None] /\
    header "Retry-After" <$> outs = [None; None; None; Some "1"; None].
Proof.
  do 2 eexists. split; [reflexivity|]. cbn zeta.
  split; [by repeat constructor|]. by vm_compute.
Qed.

(** ** The default key generator *)

(** Either no header of the request has one of the three names, and the key
    is ["unknown"], or the key is the value of a header that has. *)
Lemma defaultKeyGenerator_cases (request : Request) :
  let norm name := Js.toLowerCase (Js.trim name) in
  (Forall (fun kv => norm kv.1 ∉ forwarding_names) (headers_entries request) /\
   defaultKeyGenerator request = "unknown") \/
  (exists name,
     (name, defaultKeyGenerator request) ∈ headers_entries request /\
     norm name ∈ forwarding_names).
Proof.
  intros norm. unfold defaultKeyGenerator.
  induction (headers_entries request) as [|[name value] l IH].
  - left. by split.
  - rewrite filter_cons. cbn [fst]. fold (norm name).
    case_decide as Hin; unfold Js.includes in Hin.
    + right. exists name. cbn. apply bool_decide_unpack in Hin.
      split; [apply list_elem_of_here|exact Hin].
    + destruct IH as [[Hall Hun]|(name' & Hmem & Hin')].
      * left. split; [|exact Hun]. constructor; [|exact Hall].
        intros Hc. apply Hin. by apply bool_decide_pack.
      * right. exists name'. split; [by apply list_elem_of_further|exact Hin'].
Qed.

(** C10. The default key generator takes the key only from a header whose
    name, trimmed and lower-cased, is exactly ["x-forwareded-for"],
    ["x-real-ip"] or ["forwarded"]; so for every request whose forwarding
    headers are all the standard ["x-forwarded-for"], the key is
    ["unknown"]. *)
Theorem default_key_misses_x_forwarded_for (request : Request) :
  let norm name := Js.toLowerCase (Js.trim name) in
  Forall (fun kv => norm kv.1 = "x-forwarded-for" \/
                    norm kv.1 ∉ ["x-forwareded-for"; "x-real-ip"; "forwarded"])
    (headers_entries request) ->
  defaultKeyGenerator request = "unknown" /\
  (forall request',
     defaultKeyGenerator request' <> "unknown" ->
     exists name,
       (name, defaultKeyGenerator request') ∈ headers_entries request' /\
       (norm name = "x-forwareded-for" \/ norm name = "x-real-ip" \/
        norm name = "forwarded")).
Proof.
  intros norm Hall. split.
  - destruct (defaultKeyGenerator_cases request) as [[_ Hun]|(name & Hmem & Hin)];
      [exact Hun|].
    rewrite Forall_forall in Hall. destruct (Hall _ Hmem) as [Hstd|Hnot].
    + cbn [fst] in Hstd. fold norm in Hin. unfold norm in Hstd, Hin.
      rewrite Hstd in Hin. apply list_elem_of_In in Hin.
      cbn in Hin. intuition discriminate.
    + by destruct Hnot.
  - intros request' Hkey.
    destruct (defaultKeyGenerator_cases request') as [[_ Hun]|(name & Hmem & Hin)];
      [done|].
    exists name. split; [exact Hmem|]. fold norm in Hin.
    apply list_elem_of_In in Hin. cbn in Hin.
    destruct Hin as [H|[H|[H|[]]]]; auto.
Qed.

Lemma default_key_misses_x_forwarded_for_witness :
  defaultKeyGenerator proxied_request = "unknown".
Proof.
  apply (default_key_misses_x_forwarded_for proxied_request).
  constructor; [left; reflexivity|].
  constructor; [|constructor].
  right. intros Hin. apply list_elem_of_In in Hin. cbn in Hin.
  destruct Hin as [H|[H|[H|[]]]]; discriminate H.
Defined.

(** ** Requests in flight together *)

Section in_flight.
Context (p : Plugin).
Implicit Types (sh : Shared) (clock : Clock) (request : Request) (key : string).
Implicit Types (t : Task) (ts : list Task) (sys : System).
Implicit Types (schedule : list (nat * Clock)) (arrivals : list (Clock * Request)).

(** What the hook leaves in the cache and in the logger does not depend on
    the [set] it was given. *)
Lemma admission_shared clock request key ctx lg (set1 set2 : SetCtx) :
  let out1 := admission p clock request key (mkState ctx set1 lg) in
  let out2 := admission p clock request key (mkState ctx set2 lg) in
  context out1.2 = context out2.2 /\ logger out1.2 = logger out2.2.
Proof.
  intros out1 out2.
  destruct (admission_run p clock request key (mkState ctx set1 lg))
    as (e1 & He1 & Hctx1 & Hrest1).
  destruct (admission_run p clock request key (mkState ctx set2 lg))
    as (e2 & He2 & Hctx2 & Hrest2).
  cbn [context set logger] in *. fold out1 in Hctx1, Hrest1. fold out2 in Hctx2, Hrest2.
  assert (e1 = e2) as ->.
  { destruct (DefaultRateLimitContext.get _ _ _).1; congruence. }
  split; [congruence|].
  destruct (bool_decide _); destruct Hrest1 as (_ & -> & _);
    by destruct Hrest2 as (_ & -> & _).
Qed.

(** The cache after a counted request: a read of the key, then a write of
    the entry [e'] to the key. *)
Lemma counted_context sh clock request (set0 : SetCtx) key :
  keyGenerator p request = Normal key ->
  skip p request key = Normal false ->
  exists e',
    match lookup_now key clock sh with
    | None => e' = mkEntry 1 (date_now clock + duration p)
    | Some e =>
        e' = if bool_decide (date_now clock > reset e)
             then mkEntry 1 (date_now clock + duration p)
             else mkEntry (count e + 1) (reset e)
    end /\
    cache_of (handle p sh clock request set0).2 =
      LRUCache.set key e' (cache_now clock)
        (LRUCache.get key (cache_now clock) (cache_of sh)).2.
Proof.
  intros Hk Hs. rewrite (handle_counted _ _ _ _ _ _ Hk Hs). cbn zeta.
  destruct (admission_run p clock request key
              (mkState (shared_context sh) set0 (shared_logger sh)))
    as (e' & He' & Hctx & _).
  cbn [context set logger] in He', Hctx.
  exists e'. split; [exact He'|].
  unfold cache_of. cbn [snd shared_context]. rewrite Hctx.
  unfold DefaultRateLimitContext.set, DefaultRateLimitContext.get.
  cbn [DefaultRateLimitContext.cache].
  by destruct (LRUCache.get key (cache_now clock) _).
Qed.

Lemma lookup_now_value key clock sh :
  lookup_now key clock sh = (LRUCache.get key (cache_now clock) (cache_of sh)).1.
Proof.
  unfold lookup_now, DefaultRateLimitContext.get, cache_of.
  by destruct (LRUCache.get key (cache_now clock) _).
Qed.

Lemma serve_app (set0 : SetCtx) arrivals1 arrivals2 sh :
  (serve p set0 (arrivals1 ++ arrivals2) sh).2 =
  (serve p set0 arrivals2 (serve p set0 arrivals1 sh).2).2.
Proof.
  revert sh. induction arrivals1 as [|[clock request] rest IH]; intros sh; [done|].
  cbn. destruct (handle p sh clock request set0) as [o sh1].
  specialize (IH sh1).
  destruct (serve p set0 (rest ++ arrivals2) sh1) as [os sh2].
  destruct (serve p set0 rest sh1) as [os' sh2']. exact IH.
Qed.

(** One piece of a task changes the shared state as serving the request
    does, if the piece settles the task, and not at all otherwise. *)
Lemma advance_shared clock t sh (set0 : SetCtx) :
  consistent p t ->
  (advance p clock t sh).2 =
  if settles_next p t then (handle p sh clock (task_request t) set0).2 else sh.
Proof.
  intros Hcons. unfold advance, settles_next, consistent in *.
  destruct (task_progress t) as [|key pending|r].
  - destruct (keyGenerator p (task_request t)) as [key|e] eqn:Hk; [done|].
    destruct (handle_uncounted p sh clock (task_request t) set0) as [r ->]; [|done].
    intros key Hk'. congruence.
  - destruct Hcons as [Hk ->].
    destruct (skip p (task_request t) key) as [[]|e] eqn:Hs.
    + destruct (handle_uncounted p sh clock (task_request t) set0) as [r ->]; [|done].
      intros key' Hk'. congruence.
    + rewrite (handle_counted _ _ _ _ _ _ Hk Hs). cbn zeta.
      pose proof (admission_shared clock (task_request t) key (shared_context sh)
                    (shared_logger sh) (task_set t) set0) as [Hc Hl].
      cbn zeta in Hc, Hl.
      destruct (admission p clock (task_request t) key
                  (mkState (shared_context sh) (task_set t) (shared_logger sh))).
      cbn [fst snd] in *. by rewrite Hc, Hl.
    + destruct (handle_uncounted p sh clock (task_request t) set0) as [r ->]; [|done].
      intros key' Hk'. congruence.
  - done.
Qed.

(** A piece keeps the request of its task, and keeps the task consistent. *)
Lemma advance_request clock t sh :
  task_request (advance p clock t sh).1 = task_request t.
Proof.
  unfold advance. destruct (task_progress t) as [|key [[]|e]|r];
    try done.
  - by destruct (keyGenerator p (task_request t)).
  - by destruct (admission _ _ _ _ _).
Qed.

Lemma advance_consistent clock t sh : consistent p (advance p clock t sh).1.
Proof.
  unfold advance, consistent. destruct (task_progress t) as [|key [[]|e]|r] eqn:Ht;
    cbn; try done.
  - by destruct (keyGenerator p (task_request t)) eqn:Hk.
  - by destruct (admission _ _ _ _ _).
  - by rewrite Ht.
Qed.

(** The progress a piece makes: a settled task stays as it is, and a task
    that settles next is settled after the piece. *)
Lemma advance_settledb clock t sh :
  settledb (advance p clock t sh).1 = settledb t || settles_next p t.
Proof.
  unfold advance, settledb, settles_next.
  destruct (task_progress t) as [|key [[]|e]|r] eqn:Ht; cbn; try done.
  - by destruct (keyGenerator p (task_request t)).
  - by destruct (admission _ _ _ _ _).
  - by rewrite Ht.
Qed.

(** The two pieces of a task, one right after the other, are the hook run
    without interruption. *)
Lemma pieces_compose clock0 clock request (set0 : SetCtx) sh :
  let first := advance p clock0 (mkTask request set0 Arrived) sh in
  let last := advance p clock first.1 first.2 in
  let whole := handle p sh clock request set0 in
  last = (mkTask request (response whole.1) (Settled (result whole.1)), whole.2).
Proof.
  unfold advance, handle, onRequest, mbind, hook_bind, bind, call. cbn.
  destruct (keyGenerator p request) as [key|e]; cbn; [|by destruct sh].
  destruct (skip p request key) as [[]|e]; cbn; try by destruct sh.
  by destruct (admission _ _ _ _ _).
Qed.

End in_flight.

Section schedules.
Context (p : Plugin).
Implicit Types (sh : Shared) (clock : Clock) (key : string).
Implicit Types (t : Task) (ts : list Task) (sys : System).
Implicit Types (schedule : list (nat * Clock)).

Lemma step_consistent i clock sys :
  Forall (consistent p) (tasks sys) ->
  Forall (consistent p) (tasks (step p i clock sys)).
Proof.
  intros Hall. unfold step. destruct (tasks sys !! i) as [t|] eqn:Hi; [|done].
  pose proof (advance_consistent p clock t (shared sys)) as Hc.
  destruct (advance p clock t (shared sys)) as [t' sh']. cbn [tasks fst] in *.
  by apply Forall_insert.
Qed.

Lemma step_requests i clock sys :
  task_request <$> tasks (step p i clock sys) = task_request <$> tasks sys.
Proof.
  unfold step. destruct (tasks sys !! i) as [t|] eqn:Hi; [|done].
  pose proof (advance_request p clock t (shared sys)) as Hr.
  destruct (advance p clock t (shared sys)) as [t' sh']. cbn [tasks fst] in *.
  rewrite list_fmap_insert, Hr. apply list_insert_id.
  by rewrite list_lookup_fmap, Hi.
Qed.

Lemma run_requests schedule sys :
  task_request <$> tasks (run p schedule sys) = task_request <$> tasks sys.
Proof.
  revert sys. induction schedule as [|[i clock] rest IH]; intros sys; [done|].
  cbn. by rewrite IH, step_requests.
Qed.

(** Any schedule leaves the shared state that serving the requests one
    after the other, in the order in which they settled, leaves. *)
Lemma run_linearizable (set0 : SetCtx) schedule sys :
  Forall (consistent p) (tasks sys) ->
  shared (run p schedule sys) =
  (serve p set0 (linearization p schedule sys) (shared sys)).2.
Proof.
  revert sys. induction schedule as [|[i clock] rest IH]; intros sys Hall; [done|].
  cbn [run linearization]. rewrite serve_app.
  rewrite (IH _ (step_consistent i clock sys Hall)). f_equal. f_equal.
  unfold step. destruct (tasks sys !! i) as [t|] eqn:Hi; [|done].
  assert (consistent p t) as Hc.
  { rewrite Forall_lookup in Hall. by eapply Hall. }
  pose proof (advance_shared p clock t (shared sys) set0 Hc) as Hsh.
  destruct (advance p clock t (shared sys)) as [t' sh']. cbn [shared snd] in *.
  rewrite Hsh. destruct (settles_next p t); [|done].
  cbn. by destruct (handle p (shared sys) clock (task_request t) set0).
Qed.

(** The requests of the settled tasks after one more piece. *)
Lemma settled_insert ts i t t' :
  ts !! i = Some t ->
  task_request t' = task_request t ->
  settledb t' = settledb t || settles_next p t ->
  task_request <$> filter settledb (<[i:=t']> ts) ≡ₚ
  (if settles_next p t then [task_request t] else []) ++
  (task_request <$> filter settledb ts).
Proof.
  intros Hi Hreq Hset.
  rewrite insert_take_drop by (by eapply lookup_lt_Some).
  rewrite <- (take_drop_middle ts i t Hi) at 3.
  rewrite !filter_app, !filter_cons, !fmap_app.
  assert (settledb t = true -> settles_next p t = false) as Hexcl.
  { unfold settledb, settles_next. by destruct (task_progress t). }
  destruct (settledb t) eqn:Ht; destruct (settles_next p t) eqn:Hn;
    rewrite Hset; cbn [orb]; try (by specialize (Hexcl eq_refl)).
  - rewrite !decide_True by done. cbn. by rewrite Hreq.
  - rewrite decide_True by done. rewrite decide_False by (by intros []).
    rewrite fmap_cons, Hreq. cbn. by rewrite Permutation_middle.
  - rewrite !decide_False by (by intros []). done.
Qed.

(** The requests that a schedule settles, in the order of their settling,
    together with those settled before, are those settled at the end. *)
Lemma linearization_settled schedule sys :
  task_request <$> filter settledb (tasks (run p schedule sys)) ≡ₚ
  (linearization p schedule sys).*2 ++
  (task_request <$> filter settledb (tasks sys)).
Proof.
  revert sys. induction schedule as [|[i clock] rest IH]; intros sys; [done|].
  cbn [run linearization].
  assert (task_request <$> filter settledb (tasks (step p i clock sys)) ≡ₚ
          (match tasks sys !! i with
           | Some t => if settles_next p t then [(clock, task_request t)] else []
           | None => []
           end).*2 ++ (task_request <$> filter settledb (tasks sys))) as Hstep.
  { unfold step. destruct (tasks sys !! i) as [t|] eqn:Hi; [|done].
    pose proof (advance_request p clock t (shared sys)) as Hr.
    pose proof (advance_settledb p clock t (shared sys)) as Hs.
    destruct (advance p clock t (shared sys)) as [t' sh']. cbn [tasks fst] in *.
    rewrite (settled_insert _ _ _ _ Hi Hr Hs). by destruct (settles_next p t). }
  rewrite IH, Hstep, fmap_app, <- app_assoc.
  apply Permutation_app_swap_app.
Qed.

End schedules.

(** ** Requests inside one window *)

Lemma holds_stored key c r lo hi sh :
  holds key c r lo hi sh -> stored key sh = Some (mkEntry c r).
Proof.
  intros (it & Hfind & Hval & _). unfold stored, LRUCache.peek.
  fold (cache_of sh). by rewrite Hfind, <- Hval.
Qed.


Section one_window.
Context (p : Plugin) (key : string) (set0 : SetCtx).
Context (r lo hi : Z).
Implicit Types (sh : Shared) (clock : Clock) (request : Request) (c : Z).

(** What one request does to the entry of [key], while the window is open
    ([now <= r]), the time-to-live has not run out (the cache clock stays
    between [lo] and [hi], no further apart than the time-to-live) and the
    cache has room. *)
Lemma handle_in_window sh clock request c :
  holds key c r lo hi sh ->
  hi - lo <= LRUCache.ttl (cache_of sh) ->
  Z.of_nat (length (LRUCache.items (cache_of sh))) < LRUCache.max (cache_of sh) ->
  date_now clock <= r ->
  lo <= cache_now clock <= hi ->
  let sh' := (handle p sh clock request set0).2 in
  holds key (c + if counted p key request then 1 else 0) r lo hi sh' /\
  LRUCache.max (cache_of sh') = LRUCache.max (cache_of sh) /\
  LRUCache.ttl (cache_of sh') = LRUCache.ttl (cache_of sh) /\
  (length (LRUCache.items (cache_of sh')) <= S (length (LRUCache.items (cache_of sh))))%nat.
Proof.
  intros (it & Hfind & Hval & Hstart) Httl Hroom Hnow Htick sh'. subst sh'.
  set (tick := cache_now clock) in *.
  set (cch := cache_of sh) in *.
  assert ((forall k', keyGenerator p request = Normal k' ->
                       skip p request k' <> Normal false) ->
          (handle p sh clock request set0).2 = sh) as Hsame.
  { intros H. by destruct (handle_uncounted p sh clock request set0 H) as [? ->]. }
  unfold counted.
  destruct (keyGenerator p request) as [k|e] eqn:Hk; cycle 1.
  { rewrite Hsame by (intros; congruence).
    rewrite Z.add_0_r. split; [by exists it|subst cch; repeat split; lia]. }
  destruct (skip p request k) as [[]|e] eqn:Hs.
  { rewrite Hsame by (intros; congruence).
    rewrite andb_false_r, Z.add_0_r. split; [by exists it|subst cch; repeat split; lia]. }
  2:{ rewrite Hsame by (intros; congruence).
      rewrite andb_false_r, Z.add_0_r. split; [by exists it|subst cch; repeat split; lia]. }
  destruct (counted_context p sh clock request set0 k Hk Hs) as (e' & He' & Hcache).
  rewrite lookup_now_value in He'. fold tick cch in He', Hcache.
  unfold holds. rewrite Hcache.
  destruct (get_max_ttl k tick cch) as [Hgmax Hgttl].
  destruct (set_max_ttl k e' tick (LRUCache.get k tick cch).2) as [Hsmax Hsttl].
  pose proof (get_length k tick cch) as Hglen.
  rewrite Hsmax, Hsttl, Hgmax, Hgttl.
  case_bool_decide as Hkey; cbn [andb].
  - subst k.
    assert (LRUCache.isStale cch tick it = false) as Hfresh.
    { unfold LRUCache.isStale. apply bool_decide_eq_false. lia. }
    rewrite get_value, Hfind, Hfresh, Hval in He'. cbn [reset count] in He'.
    rewrite bool_decide_eq_false_2 in He' by lia. subst e'.
    pose proof (get_found key tick cch it Hfind Hfresh) as Hkept.
    split; [|split; [done|split; [done|]]].
    + eexists. split; [apply set_found|]. cbn. split; [done|lia].
    + pose proof (set_length key (mkEntry (c + 1) r) tick
                    (LRUCache.get key tick cch).2) as Hslen.
      rewrite Hkept in Hslen. specialize (Hslen (or_introl (mk_is_Some _ _ eq_refl))).
      lia.
  - assert (is_Some (LRUCache.find_item k (LRUCache.items (LRUCache.get k tick cch).2)) \/
            Z.of_nat (length (LRUCache.items (LRUCache.get k tick cch).2)) <
            LRUCache.max (LRUCache.get k tick cch).2) as Hroom'.
    { right. rewrite Hgmax. lia. }
    split; [|split; [done|split; [done|]]].
    + exists it. rewrite Z.add_0_r. split; [|done].
      rewrite set_other by (done || congruence). by rewrite get_other by congruence.
    + pose proof (set_length k e' tick (LRUCache.get k tick cch).2 Hroom') as Hslen.
      destruct (LRUCache.find_item k _); lia.
Qed.

(** The same for a run of requests: the count of [key] goes up by the
    number of requests that count against it. *)
Lemma serve_in_window (arrivals : list (Clock * Request)) sh c :
  holds key c r lo hi sh ->
  hi - lo <= LRUCache.ttl (cache_of sh) ->
  Z.of_nat (length (LRUCache.items (cache_of sh))) + Z.of_nat (length arrivals)
    <= LRUCache.max (cache_of sh) ->
  Forall (fun ar => date_now ar.1 <= r /\ lo <= cache_now ar.1 <= hi) arrivals ->
  holds key (c + Z.of_nat (length (filter (fun rq => counted p key rq) arrivals.*2)))
    r lo hi (serve p set0 arrivals sh).2.
Proof.
  revert sh c. induction arrivals as [|[clock request] rest IH];
    intros sh c Hholds Httl Hroom Hclocks.
  - cbn. by rewrite Z.add_0_r.
  - apply Forall_cons in Hclocks as [[Hnow Htick] Hclocks]. cbn [fst] in Hnow, Htick.
    cbn [length] in Hroom.
    destruct (handle_in_window sh clock request c Hholds Httl ltac:(lia) Hnow Htick)
      as (Hholds' & Hmax & Httl' & Hlen).
    cbn [serve]. destruct (handle p sh clock request set0) as [o sh1].
    cbn [snd] in *.
    specialize (IH sh1 _ Hholds' ltac:(lia) ltac:(lia) Hclocks).
    destruct (serve p set0 rest sh1) as [os sh2]. cbn [snd] in *.
    rewrite fmap_cons, filter_cons. cbn [snd].
    destruct (counted p key request); cbn.
    + rewrite decide_True by done. cbn [length].
      replace (c + Z.of_nat (S (length (filter (λ rq, counted p key rq) rest.*2))))
        with (c + 1 + Z.of_nat (length (filter (λ rq, counted p key rq) rest.*2)))
        by lia.
      exact IH.
    + rewrite decide_False by (by intros []). rewrite Z.add_0_r in IH. exact IH.
Qed.

End one_window.

(** ** Requests that open a window *)

Section fresh_window.
Context (p : Plugin) (key : string) (set0 : SetCtx).
Context (t0 lo hi : Z).
Implicit Types (sh : Shared) (clock : Clock) (request : Request).

(** What one request does when the cache holds nothing for [key]: a
    request counted against [key] opens its window, any other request
    leaves [key] without an entry. *)
Lemma handle_absent sh clock request :
  LRUCache.find_item key (LRUCache.items (cache_of sh)) = None ->
  Z.of_nat (length (LRUCache.items (cache_of sh))) < LRUCache.max (cache_of sh) ->
  lo <= cache_now clock <= hi ->
  let sh' := (handle p sh clock request set0).2 in
  (if counted p key request
   then holds key 1 (date_now clock + duration p) lo hi sh'
   else LRUCache.find_item key (LRUCache.items (cache_of sh')) = None) /\
  LRUCache.max (cache_of sh') = LRUCache.max (cache_of sh) /\
  LRUCache.ttl (cache_of sh') = LRUCache.ttl (cache_of sh) /\
  (length (LRUCache.items (cache_of sh')) <= S (length (LRUCache.items (cache_of sh))))%nat.
Proof.
  intros Hfind Hroom Htick sh'. subst sh'.
  set (tick := cache_now clock) in *.
  assert ((forall k', keyGenerator p request = Normal k' ->
                       skip p request k' <> Normal false) ->
          (handle p sh clock request set0).2 = sh) as Hsame.
  { intros H. by destruct (handle_uncounted p sh clock request set0 H) as [? ->]. }
  unfold counted.
  destruct (keyGenerator p request) as [k|e] eqn:Hk; cycle 1.
  { rewrite Hsame by (intros; congruence). repeat split; [done|lia]. }
  destruct (skip p request k) as [[]|e] eqn:Hs.
  { rewrite Hsame by (intros; congruence).
    rewrite andb_false_r. repeat split; [done|lia]. }
  2:{ rewrite Hsame by (intros; congruence).
      rewrite andb_false_r. repeat split; [done|lia]. }
  destruct (counted_context p sh clock request set0 k Hk Hs) as (e' & He' & Hcache).
  rewrite lookup_now_value in He'. fold tick in He', Hcache.
  unfold holds. rewrite Hcache.
  destruct (get_max_ttl k tick (cache_of sh)) as [Hgmax Hgttl].
  destruct (set_max_ttl k e' tick (LRUCache.get k tick (cache_of sh)).2) as [Hsmax Hsttl].
  pose proof (get_length k tick (cache_of sh)) as Hglen.
  rewrite Hsmax, Hsttl, Hgmax, Hgttl.
  assert (is_Some (LRUCache.find_item k
                     (LRUCache.items (LRUCache.get k tick (cache_of sh)).2)) \/
          Z.of_nat (length (LRUCache.items (LRUCache.get k tick (cache_of sh)).2)) <
          LRUCache.max (LRUCache.get k tick (cache_of sh)).2) as Hroom'.
  { right. rewrite Hgmax. lia. }
  pose proof (set_length k e' tick (LRUCache.get k tick (cache_of sh)).2 Hroom') as Hslen.
  split; [|split; [done|split; [done|]]].
  - case_bool_decide as Hkey; cbn [andb].
    + subst k. rewrite get_value, Hfind in He'. subst e'.
      eexists. split; [apply set_found|]. cbn. split; [done|lia].
    + rewrite set_other by (done || congruence). by rewrite get_other by congruence.
  - destruct (LRUCache.find_item k _); lia.
Qed.

(** A run of requests, all inside the time that a window lasts, on a cache
    that holds nothing for [key]: at the end the count of [key] is the
    number of requests counted against it. *)
Lemma serve_from_absent (arrivals : list (Clock * Request)) sh :
  LRUCache.find_item key (LRUCache.items (cache_of sh)) = None ->
  hi - lo <= LRUCache.ttl (cache_of sh) ->
  Z.of_nat (length (LRUCache.items (cache_of sh))) + Z.of_nat (length arrivals)
    <= LRUCache.max (cache_of sh) ->
  Forall (fun ar => t0 <= date_now ar.1 <= t0 + duration p /\
                    lo <= cache_now ar.1 <= hi) arrivals ->
  count_of key (serve p set0 arrivals sh).2 =
  Z.of_nat (length (filter (fun rq => counted p key rq) arrivals.*2)).
Proof.
  revert sh. induction arrivals as [|[clock request] rest IH];
    intros sh Hfind Httl Hroom Hclocks.
  - cbn. unfold count_of, stored, LRUCache.peek. fold (cache_of sh). by rewrite Hfind.
  - apply Forall_cons in Hclocks as [[Hnow Htick] Hclocks]. cbn [fst] in Hnow, Htick.
    cbn [length] in Hroom.
    destruct (handle_absent sh clock request Hfind ltac:(lia) Htick)
      as (Hkey & Hmax & Httl' & Hlen).
    cbn [serve]. pose proof (serve_in_window p key set0 (date_now clock + duration p)
                               lo hi rest (handle p sh clock request set0).2 1) as Hwin.
    specialize (IH (handle p sh clock request set0).2).
    destruct (handle p sh clock request set0) as [o sh1]. cbn [snd] in *.
    destruct (serve p set0 rest sh1) as [os sh2]. cbn [snd] in *.
    rewrite fmap_cons, filter_cons. cbn [snd].
    destruct (counted p key request); cbn.
    + rewrite decide_True by done. cbn [length].
      unfold count_of.
      rewrite (holds_stored key
                 (1 + Z.of_nat (length (filter (λ rq, counted p key rq) rest.*2)))
                 (date_now clock + duration p) lo hi sh2); [cbn; lia|].
      apply Hwin; [done|lia|lia|].
      eapply Forall_impl; [exact Hclocks|]. intros ar [? ?]. split; [lia|done].
    + rewrite decide_False by (by intros []). apply IH; [done|lia|lia|done].
Qed.

End fresh_window.

(** ** No lost updates *)

Lemma filter_none {A} (P : A -> Prop) `{!forall x, Decision (P x)} (l : list A) :
  Forall (fun x => ~ P x) l -> filter P l = [].
Proof.
  induction 1 as [|x l Hx _ IH]; [done|]. by rewrite filter_cons_False.
Qed.

Lemma filter_all {A} (P : A -> Prop) `{!forall x, Decision (P x)} (l : list A) :
  Forall P l -> filter P l = l.
Proof.
  induction 1 as [|x l Hx _ IH]; [done|]. by rewrite filter_cons_True, IH.
Qed.

Lemma linearization_clocks p (P : Clock -> Prop) schedule sys :
  Forall (fun ev : nat * Clock => P ev.2) schedule ->
  Forall (fun ar : Clock * Request => P ar.1) (linearization p schedule sys).
Proof.
  revert sys. induction schedule as [|[i clock] rest IH]; intros sys Hall; [done|].
  apply Forall_cons in Hall as [Hclock Hall]. cbn [linearization].
  apply Forall_app. split; [|by apply IH].
  destruct (tasks sys !! i) as [t|]; [|done].
  destruct (settles_next p t); by repeat constructor.
Qed.

(** C9, as stated, fails.  With the window of two hours, which the plugin
    accepts, two requests of one client are in flight together on a new
    cache.  The first settles at millisecond 1000 and opens the window that
    ends at 7201000; the second settles at 5401000, inside that window.
    Nothing is evicted for capacity: the cache never holds more than one
    item.  But the time-to-live of one hour has run out, [context.get]
    misses, and the second request starts again at 1: two requests counted
    against the key, and a count of 1. *)
Lemma ttl_expiry_loses_update_counterexample :
  let sys0 := mkSystem two_in_flight fresh_shared in
  let final := run two_hour_plugin late_schedule sys0 in
  Forall (fun t => task_progress t = Arrived) (tasks sys0) /\
  Forall (fun t => settledb t = true) (tasks final) /\
  length (filter (fun rq => counted two_hour_plugin sample_key rq)
            (task_request <$> tasks sys0)) = 2%nat /\
  stored sample_key (shared (run two_hour_plugin (take 3 late_schedule) sys0))
    = Some (mkEntry 1 7201000) /\
  Forall (fun ev => date_now ev.2 <= 7201000) late_schedule /\
  length (LRUCache.items (cache_of (shared final))) = 1%nat /\
  stored sample_key (shared final) = Some (mkEntry 1 12601000) /\
  count_of sample_key (shared final) <> count_of sample_key (shared sys0) + 2.
Proof.
  cbn zeta.
  split; [by repeat constructor|].
  split; [repeat (constructor; [vm_compute; reflexivity|]); constructor|].
  split; [vm_compute; reflexivity|].
  split; [vm_compute; reflexivity|].
  split; [repeat (constructor; [vm_compute; discriminate|]); constructor|].
  split; [vm_compute; reflexivity|].
  split; [vm_compute; reflexivity|].
  vm_compute. discriminate.
Qed.

(** C9, amended.  Requests in flight together: each hook runs up to its
    [await] in one piece and from there to its end, with the read, the
    increment and the write, in another; the event loop interleaves the
    pieces of different hooks in any order.  Whatever the order, the shared
    state at the end is the one that serving the requests one after the
    other leaves, in the order in which they settled, and that order holds
    every request exactly once.  So, inside one window (the one that is
    open when the requests arrive, which no [Date.now()] reading exceeds;
    or, when the cache holds nothing for the key, the one that the first of
    them opens, all readings lying within one [duration]) and as long as
    the entry is not evicted in between, neither for capacity (the cache
    has room for every request) nor by the time-to-live of the store (the
    readings of the cache clock stay within one time-to-live, the arming of
    the entry included), the count of a key goes up by exactly the number
    of requests counted against it. *)
Theorem per_key_linearizable p key (set0 : SetCtx) (ts : list Task) sh schedule t0 lo :
  Forall (fun t => task_progress t = Arrived) ts ->
  Z.of_nat (length (LRUCache.items (cache_of sh))) + Z.of_nat (length ts)
    <= LRUCache.max (cache_of sh) ->
  (forall s0, armed key sh = Some s0 ->
              lo <= s0 <= lo + LRUCache.ttl (cache_of sh)) ->
  Forall (fun ev =>
            lo <= cache_now ev.2 <= lo + LRUCache.ttl (cache_of sh) /\
            match stored key sh with
            | Some e0 => date_now ev.2 <= reset e0
            | None => t0 <= date_now ev.2 <= t0 + duration p
            end) schedule ->
  let final := run p schedule (mkSystem ts sh) in
  Forall (fun t => settledb t = true) (tasks final) ->
  let order := linearization p schedule (mkSystem ts sh) in
  let n := Z.of_nat (length (filter (fun rq => counted p key rq) (task_request <$> ts))) in
  order.*2 ≡ₚ task_request <$> ts /\
  shared final = (serve p set0 order sh).2 /\
  count_of key (shared final) = count_of key sh + n /\
  (forall e0, stored key sh = Some e0 ->
              stored key (shared final) = Some (mkEntry (count e0 + n) (reset e0))).
Proof.
  intros Hfresh Hroom Harmed Hclocks final Hdone order n.
  assert (Forall (consistent p) ts) as Hcons.
  { eapply Forall_impl; [exact Hfresh|]. intros t Ht. unfold consistent. by rewrite Ht. }
  assert (filter settledb ts = []) as Hnone.
  { apply filter_none. eapply Forall_impl; [exact Hfresh|].
    intros t Ht. unfold settledb. rewrite Ht. by intros []. }
  assert (filter settledb (tasks final) = tasks final) as Hall.
  { apply filter_all. eapply Forall_impl; [exact Hdone|].
    intros t Ht. by rewrite Ht. }
  assert (order.*2 ≡ₚ task_request <$> ts) as Hperm.
  { pose proof (linearization_settled p schedule (mkSystem ts sh)) as H.
    fold final order in H. cbn [tasks] in H.
    rewrite Hall, Hnone, app_nil_r in H. subst final.
    by rewrite run_requests in H. }
  assert (shared final = (serve p set0 order sh).2) as Hlin.
  { subst final order. by rewrite (run_linearizable p set0). }
  split; [exact Hperm|]. split; [exact Hlin|].
  assert (length (filter (fun rq => counted p key rq) (task_request <$> ts)) =
          length (filter (fun rq => counted p key rq) order.*2)) as Hn.
  { by rewrite Hperm. }
  subst n. rewrite Hn, Hlin. clear Hn.
  destruct schedule as [|ev rest].
  { subst final order. cbn in *.
    rewrite Z.add_0_r. split; [done|]. intros [] ->. by rewrite Z.add_0_r. }
  assert (0 <= LRUCache.ttl (cache_of sh)) as Hpos.
  { apply Forall_cons in Hclocks as [[? _] _]. lia. }
  assert (Z.of_nat (length (LRUCache.items (cache_of sh))) + Z.of_nat (length order)
          <= LRUCache.max (cache_of sh)) as Hroom'.
  { apply Permutation_length in Hperm. rewrite !length_fmap in Hperm.
    by rewrite Hperm. }
  pose proof (linearization_clocks p
                (fun clock =>
                   lo <= cache_now clock <= lo + LRUCache.ttl (cache_of sh) /\
                   match stored key sh with
                   | Some e0 => date_now clock <= reset e0
                   | None => t0 <= date_now clock <= t0 + duration p
                   end)
                (ev :: rest) (mkSystem ts sh) Hclocks) as Hord.
  fold order in Hord. cbn beta in Hord.
  assert (stored key sh =
          LRUCache.item_value <$>
            LRUCache.find_item key (LRUCache.items (cache_of sh))) as Hst by done.
  destruct (LRUCache.find_item key (LRUCache.items (cache_of sh))) as [it|] eqn:Hfind;
    cbn in Hst; rewrite Hst in Hord.
  - assert (holds key (count (LRUCache.item_value it)) (reset (LRUCache.item_value it))
              lo (lo + LRUCache.ttl (cache_of sh)) sh) as Hholds.
    { exists it. split; [exact Hfind|]. split; [by destruct (LRUCache.item_value it)|].
      apply Harmed. unfold armed. by rewrite Hfind. }
    pose proof (serve_in_window p key set0 _ _ _ order sh _ Hholds ltac:(lia) Hroom')
      as Hwin.
    apply holds_stored in Hwin.
    + split.
      * unfold count_of. by rewrite Hwin, Hst.
      * intros e0 He0. rewrite Hst in He0. injection He0 as <-. exact Hwin.
    + eapply Forall_impl; [exact Hord|]. intros ar [? ?]. by split.
  - split; [|by rewrite Hst].
    unfold count_of at 2. rewrite Hst. cbn [fmap option_fmap option_map default].
    rewrite Z.add_0_l.
    apply (serve_from_absent p key set0 t0 lo (lo + LRUCache.ttl (cache_of sh)));
      [done|lia|done|].
    eapply Forall_impl; [exact Hord|]. intros ar [? ?]. by split.
Qed.

(** On the sample inputs: two requests in flight on the window that a first
    request has opened bring its count from 1 to 3; on a cache that holds
    nothing yet, both are counted in the window that the first of them
    opens. *)
Lemma per_key_linearizable_witness :
  (stored sample_key (after_requests 1) = Some (mkEntry 1 1000) /\
   armed sample_key (after_requests 1) = Some 0 /\
   stored sample_key
     (shared (run sample_plugin sample_schedule
                (mkSystem two_in_flight (after_requests 1))))
   = Some (mkEntry 3 1000)) /\
  (stored sample_key fresh_shared = None /\
   count_of sample_key
     (shared (run sample_plugin sample_schedule (mkSystem two_in_flight fresh_shared)))
   = 2).
Proof.
  split.
  - split; [reflexivity|]. split; [reflexivity|].
    destruct (per_key_linearizable sample_plugin sample_key blank_set two_in_flight
                (after_requests 1) sample_schedule 0 0) as (_ & _ & _ & Hst).
    + by repeat constructor.
    + by vm_compute.
    + intros s0 [= <-]. by vm_compute.
    + repeat (constructor; [by vm_compute|]). constructor.
    + repeat (constructor; [reflexivity|]). constructor.
    + exact (Hst (mkEntry 1 1000) eq_refl).
  - split; [reflexivity|].
    destruct (per_key_linearizable sample_plugin sample_key blank_set two_in_flight
                fresh_shared sample_schedule 0 0) as (_ & _ & Hcount & _).
    + by repeat constructor.
    + by vm_compute.
    + by intros s0 [=].
    + repeat (constructor; [by vm_compute|]). constructor.
    + repeat (constructor; [reflexivity|]). constructor.
    + exact Hcount.
Defined.

(** * Further properties of the rate limiter *)

(** ** What a stopped request leaves behind *)

(** The verdict on a counted request, with the logger and the result of the
    hook, in terms of the entry [e'] that it writes back. *)
Lemma counted_verdict p sh clock request (set0 : SetCtx) key :
  keyGenerator p request = Normal key ->
  skip p request key = Normal false ->
  let out := handle p sh clock request set0 in
  exists e',
    match lookup_now key clock sh with
    | None => e' = mkEntry 1 (date_now clock + duration p)
    | Some e =>
        e' = if bool_decide (date_now clock > reset e)
             then mkEntry 1 (date_now clock + duration p)
             else mkEntry (count e + 1) (reset e)
    end /\
    stored key out.2 = Some e' /\
    if bool_decide (count e' > maxRequests p) then
      ~ proceeds out.1 /\
      status out.1 = Some 429 /\
      shared_logger out.2 =
        Logger_log warn ("Rate limit exceeded for key: " +:+ key) (shared_logger sh) /\
      result out.1 = match errorResponse p with
                     | Static body => Normal (Some body)
                     | Producer f =>
                         match f request with
                         | Normal body => Normal (Some body)
                         | Throw e => Throw e
                         end
                     end
    else
      proceeds out.1 /\ shared_logger out.2 = shared_logger sh.
Proof.
  intros Hk Hs out. subst out.
  rewrite (handle_counted _ _ _ _ _ _ Hk Hs). cbn zeta.
  destruct (admission_run p clock request key
              (mkState (shared_context sh) set0 (shared_logger sh)))
    as (e' & He' & Hctx & Hrest).
  cbn [context set logger] in He', Hctx, Hrest.
  exists e'. split; [exact He'|]. split.
  { unfold stored, LRUCache.peek. cbn [fst snd shared_context].
    rewrite Hctx. unfold DefaultRateLimitContext.set. cbn.
    by rewrite set_found. }
  unfold status, proceeds. cbn [fst snd response result shared_logger].
  case_bool_decide; destruct Hrest as (Hset & Hlog & Hres); rewrite ?Hset, Hlog, Hres;
    cbn [set_headers set_status]; [|done].
  repeat split. destruct (errorResponse p) as [|f]; [done|]. by destruct (f request).
Qed.

Lemma shouldLog_warn (minLevel : LogLevel) :
  shouldLog warn minLevel = match minLevel with error => false | _ => true end.
Proof. by destruct minLevel. Qed.

(** A request that proceeds logs nothing; a request that is stopped logs
    exactly one warning, which names the key, unless the logger is set to
    errors only, and then it logs nothing either. *)
Theorem rejection_logged_once p sh clock request (set0 : SetCtx) key :
  keyGenerator p request = Normal key ->
  skip p request key = Normal false ->
  let out := handle p sh clock request set0 in
  let lg := shared_logger sh in
  (proceeds out.1 -> shared_logger out.2 = lg) /\
  (~ proceeds out.1 ->
   logLevel (shared_logger out.2) = logLevel lg /\
   emitted (shared_logger out.2) =
     emitted lg ++
     match logLevel lg with
     | Some error => []
     | _ => [(warn, "Rate limit exceeded for key: " +:+ key)]
     end).
Proof.
  intros Hk Hs out lg.
  destruct (counted_verdict p sh clock request set0 key Hk Hs)
    as (e' & _ & _ & Hverdict).
  fold out lg in Hverdict.
  destruct (bool_decide (count e' > maxRequests p)).
  - destruct Hverdict as (Hno & _ & -> & _). split; [done|]. intros _.
    unfold Logger_log. rewrite shouldLog_warn.
    destruct (logLevel lg) as [[]|] eqn:Hl; cbn; by rewrite ?app_nil_r, ?Hl.
  - destruct Hverdict as (Hgo & ->). by split.
Qed.

Lemma rejection_logged_once_witness :
  keyGenerator sample_plugin sample_request = Normal sample_key /\
  skip sample_plugin sample_request sample_key = Normal false /\
  emitted (shared_logger
             (handle sample_plugin (after_requests 3) (at_ms 0) sample_request
                blank_set).2)
  = [(warn, "Rate limit exceeded for key: 203.0.113.7")].
Proof.
  split; [reflexivity|]. split; [reflexivity|].
  destruct (rejection_logged_once sample_plugin (after_requests 3) (at_ms 0)
              sample_request blank_set sample_key eq_refl eq_refl) as [_ Hlog].
  destruct Hlog as [_ Hem].
  - intros Hgo. vm_compute in Hgo. discriminate Hgo.
  - rewrite Hem. by vm_compute.
Defined.

(** The body of a stopped request is the configured string, or what the
    configured function makes of the request.  When that function throws,
    the hook ends with its exception, and the request has been counted and
    the status set to 429 all the same. *)
Theorem rejection_body p sh clock request (set0 : SetCtx) key :
  keyGenerator p request = Normal key ->
  skip p request key = Normal false ->
  let out := handle p sh clock request set0 in
  ~ proceeds out.1 ->
  result out.1 = match errorResponse p with
                 | Static body => Normal (Some body)
                 | Producer f =>
                     match f request with
                     | Normal body => Normal (Some body)
                     | Throw e => Throw e
                     end
                 end /\
  status out.1 = Some 429 /\
  exists e', stored key out.2 = Some e' /\ count e' > maxRequests p.
Proof.
  intros Hk Hs out Hno.
  destruct (counted_verdict p sh clock request set0 key Hk Hs)
    as (e' & _ & Hst & Hverdict).
  fold out in Hst, Hverdict. case_bool_decide as Hover.
  - destruct Hverdict as (_ & H429 & _ & Hres). eauto.
  - by destruct Hverdict as [Hgo _].
Qed.

Lemma rejection_body_witness :
  let out := handle throwing_body_plugin fresh_shared (at_ms 0) sample_request blank_set in
  result out.1 = Throw "no body" /\
  status out.1 = Some 429 /\
  stored sample_key out.2 = Some (mkEntry 1 1000).
Proof.
  pose proof (rejection_body throwing_body_plugin fresh_shared (at_ms 0) sample_request
                blank_set sample_key eq_refl eq_refl) as Hbody.
  cbn zeta in Hbody. intros out. subst out.
  destruct Hbody as (Hres & H429 & _).
  - intros Hgo. vm_compute in Hgo. discriminate Hgo.
  - split; [exact Hres|]. split; [exact H429|]. by vm_compute.
Defined.

(** ** One client's requests and another client's count *)

(** A request leaves the entry of every key other than its own as it is, as
    long as the cache has room: the count, the reset and the arming of the
    time-to-live of the other client stay what they were. *)
Theorem other_keys_untouched p sh clock request (set0 : SetCtx) (other : string) :
  keyGenerator p request <> Normal other ->
  Z.of_nat (length (LRUCache.items (cache_of sh))) < LRUCache.max (cache_of sh) ->
  let out := handle p sh clock request set0 in
  stored other out.2 = stored other sh /\
  armed other out.2 = armed other sh.
Proof.
  intros Hother Hroom out.
  assert (LRUCache.find_item other (LRUCache.items (cache_of out.2)) =
          LRUCache.find_item other (LRUCache.items (cache_of sh))) as Hsame.
  { subst out.
    destruct (keyGenerator p request) as [key|e] eqn:Hk; cycle 1.
    { destruct (handle_uncounted p sh clock request set0) as [r ->]; [|done].
      intros key Hk'. congruence. }
    destruct (skip p request key) as [[]|e] eqn:Hs.
    { destruct (handle_uncounted p sh clock request set0) as [r ->]; [|done].
      intros key' Hk'. congruence. }
    2:{ destruct (handle_uncounted p sh clock request set0) as [r ->]; [|done].
        intros key' Hk'. congruence. }
    destruct (counted_context p sh clock request set0 key Hk Hs) as (e' & _ & ->).
    assert (other <> key) as Hne by congruence.
    destruct (get_max_ttl key (cache_now clock) (cache_of sh)) as [Hgmax _].
    pose proof (get_length key (cache_now clock) (cache_of sh)) as Hglen.
    rewrite set_other; [by apply get_other|done|].
    right. rewrite Hgmax. lia. }
  unfold stored, armed, LRUCache.peek. fold (cache_of out.2) (cache_of sh).
  by rewrite Hsame.
Qed.

Lemma other_keys_untouched_witness :
  let out := handle sample_plugin (after_requests 2) (at_ms 5) proxied_request blank_set in
  stored "unknown" out.2 = Some (mkEntry 1 1005) /\
  stored sample_key out.2 = Some (mkEntry 2 1000).
Proof.
  split; [by vm_compute|].
  destruct (other_keys_untouched sample_plugin (after_requests 2) (at_ms 5)
              proxied_request blank_set sample_key) as [Hst _].
  - intros H. vm_compute in H. discriminate H.
  - by vm_compute.
  - rewrite Hst. by vm_compute.
Defined.

(** ** Counts start at one *)

Section counts.
Import LRUCache.

Lemma Forall_remove (P : Item -> Prop) k (l : list Item) :
  Forall P l -> Forall P (remove k l).
Proof.
  intros H. unfold remove. rewrite Forall_forall in *.
  intros it Hin. apply list_elem_of_In, List.filter_In in Hin as [Hin _].
  apply H. by apply list_elem_of_In.
Qed.

Lemma Forall_get (P : Item -> Prop) k tick c :
  Forall P (items c) ->
  Forall P (items (get k tick c).2) /\
  forall e, (get k tick c).1 = Some e ->
            exists it, item_value it = e /\ P it.
Proof.
  intros H. unfold get. destruct (find_item k (items c)) as [it|] eqn:E; [|done].
  assert (P it) as Hit.
  { unfold find_item in E. apply List.find_some in E as [Hin _].
    rewrite Forall_forall in H. apply H. by apply list_elem_of_In. }
  destruct (isStale c tick it); cbn [fst snd items].
  - split; [by apply Forall_remove|done].
  - split; [|intros e [= <-]; eauto].
    apply Forall_app. split; [by apply Forall_remove|by constructor].
Qed.

Lemma Forall_set (P : Item -> Prop) k v tick c :
  Forall P (items c) -> P (mkItem k v tick) -> Forall P (items (set k v tick c)).
Proof.
  intros H Hnew. unfold set. destruct (find_item k (items c)); cbn [items].
  - apply Forall_app. split; [by apply Forall_remove|by constructor].
  - apply Forall_app. split; [|by constructor].
    case_bool_decide; [done|]. unfold evict. destruct (items c); [done|].
    by apply Forall_cons in H as [_ H].
Qed.

End counts.

(** One request keeps every count in the cache at one or more. *)
Lemma handle_well_counted p sh clock request (set0 : SetCtx) :
  well_counted sh -> well_counted (handle p sh clock request set0).2.
Proof.
  intros Hwc.
  destruct (keyGenerator p request) as [key|e] eqn:Hk; cycle 1.
  { destruct (handle_uncounted p sh clock request set0) as [r ->]; [|done].
    intros key Hk'. congruence. }
  destruct (skip p request key) as [[]|e] eqn:Hs.
  { destruct (handle_uncounted p sh clock request set0) as [r ->]; [|done].
    intros key' Hk'. congruence. }
  2:{ destruct (handle_uncounted p sh clock request set0) as [r ->]; [|done].
      intros key' Hk'. congruence. }
  destruct (counted_context p sh clock request set0 key Hk Hs) as (e' & He' & Hcache).
  unfold well_counted in *. rewrite Hcache. rewrite lookup_now_value in He'.
  destruct (Forall_get (fun it => 1 <= count (LRUCache.item_value it)) key
              (cache_now clock) (cache_of sh) Hwc) as [Hkept Hread].
  apply Forall_set; [exact Hkept|]. cbn.
  destruct (LRUCache.get key (cache_now clock) (cache_of sh)).1 as [e|]; cycle 1.
  { by subst e'. }
  destruct (Hread e eq_refl) as (it & <- & Hit).
  subst e'. case_bool_decide; cbn; lia.
Qed.

Lemma serve_well_counted p (set0 : SetCtx) arrivals sh :
  well_counted sh -> well_counted (serve p set0 arrivals sh).2.
Proof.
  revert sh. induction arrivals as [|[clock request] rest IH]; intros sh Hwc; [done|].
  cbn [serve]. pose proof (handle_well_counted p sh clock request set0 Hwc) as Hwc'.
  destruct (handle p sh clock request set0) as [o sh1]. cbn [snd] in *.
  specialize (IH sh1 Hwc'). by destruct (serve p set0 rest sh1).
Qed.

Lemma well_counted_stored key sh e :
  well_counted sh -> stored key sh = Some e -> 1 <= count e.
Proof.
  unfold well_counted, stored, LRUCache.peek. fold (cache_of sh). intros Hwc Hst.
  destruct (LRUCache.find_item key (LRUCache.items (cache_of sh))) as [it|] eqn:E;
    [|done].
  injection Hst as <-. unfold LRUCache.find_item in E.
  apply List.find_some in E as [Hin _]. rewrite Forall_forall in Hwc.
  apply Hwc. by apply list_elem_of_In.
Qed.

(** Whatever requests a plugin has served since its cache was created, every
    count that the cache holds is at least 1: the hook never stores the 0 of
    a fresh window. *)
Theorem stored_counts_positive p (set0 : SetCtx) arrivals sh key e :
  LRUCache.items (cache_of sh) = [] ->
  stored key (serve p set0 arrivals sh).2 = Some e ->
  1 <= count e.
Proof.
  intros Hnew Hst. eapply well_counted_stored; [|exact Hst].
  apply serve_well_counted. unfold well_counted. by rewrite Hnew.
Qed.

Lemma stored_counts_positive_witness :
  exists e, stored sample_key (after_requests 2) = Some e /\ 1 <= count e.
Proof.
  exists (mkEntry 2 1000). split; [reflexivity|].
  apply (stored_counts_positive sample_plugin blank_set
           (replicate 2 (at_ms 0, sample_request)) fresh_shared sample_key);
    reflexivity.
Defined.

(** With [maxRequests] at 0 or below, a plugin stops every request that it
    counts, from the very first one. *)
Theorem zero_limit_blocks_all p (set0 : SetCtx) history sh clock request key :
  maxRequests p <= 0 ->
  LRUCache.items (cache_of sh) = [] ->
  keyGenerator p request = Normal key ->
  skip p request key = Normal false ->
  let out := handle p (serve p set0 history sh).2 clock request set0 in
  ~ proceeds out.1 /\ status out.1 = Some 429.
Proof.
  intros Hmax Hnew Hk Hs out.
  assert (well_counted out.2) as Hwc.
  { apply handle_well_counted, serve_well_counted. unfold well_counted.
    by rewrite Hnew. }
  destruct (counted_verdict p (serve p set0 history sh).2 clock request set0 key Hk Hs)
    as (e' & _ & Hst & Hverdict).
  fold out in Hst, Hverdict.
  pose proof (well_counted_stored key out.2 e' Hwc Hst) as Hpos.
  case_bool_decide; [|lia]. by destruct Hverdict as (Hno & H429 & _).
Qed.

Lemma zero_limit_blocks_all_witness :
  let p := destructure (mkOptions (Some 0) None None None None) in
  status (handle p fresh_shared (at_ms 0) sample_request blank_set).1 = Some 429.
Proof.
  apply (zero_limit_blocks_all (destructure (mkOptions (Some 0) None None None None))
           blank_set [] fresh_shared (at_ms 0) sample_request sample_key);
    [discriminate|reflexivity..].
Defined.

(** ** A burst of requests from one client *)

Section burst.
Context (p : Plugin) (key : string) (set0 : SetCtx).
Implicit Types (sh : Shared) (clock : Clock) (request : Request).

Lemma counted_true request :
  keyGenerator p request = Normal key ->
  skip p request key = Normal false ->
  counted p key request = true.
Proof.
  intros Hk Hs. unfold counted. rewrite Hk, Hs. by rewrite bool_decide_eq_true_2.
Qed.

(** An entry that is held and has not expired is what [context.get]
    answers. *)
Lemma holds_lookup_now c r lo hi sh clock :
  holds key c r lo hi sh ->
  hi - lo <= LRUCache.ttl (cache_of sh) ->
  lo <= cache_now clock <= hi ->
  lookup_now key clock sh = Some (mkEntry c r).
Proof.
  intros (it & Hfind & Hval & Hstart) Httl Htick.
  rewrite lookup_now_value, get_value, Hfind.
  unfold LRUCache.isStale. rewrite bool_decide_eq_false_2 by lia. by rewrite Hval.
Qed.

(** The outcomes of a run of requests of one client inside its window: the
    request number [i] of the run brings the count to [c + i + 1]. *)
Lemma serve_outcomes_in_window r lo hi (arrivals : list (Clock * Request)) sh c :
  holds key c r lo hi sh ->
  hi - lo <= LRUCache.ttl (cache_of sh) ->
  Z.of_nat (length (LRUCache.items (cache_of sh))) + Z.of_nat (length arrivals)
    <= LRUCache.max (cache_of sh) ->
  Forall (fun ar => keyGenerator p ar.2 = Normal key /\
                    skip p ar.2 key = Normal false /\
                    date_now ar.1 <= r /\
                    lo <= cache_now ar.1 <= hi) arrivals ->
  forall (i : nat) o,
    (serve p set0 arrivals sh).1 !! i = Some o ->
    (proceeds o <-> c + Z.of_nat i + 1 <= maxRequests p) /\
    header "RateLimit-Remaining" o =
      Some (Js.toString (Z.max 0 (maxRequests p - (c + Z.of_nat i + 1)))) /\
    (~ proceeds o -> status o = Some 429).
Proof.
  revert sh c. induction arrivals as [|[clock request] rest IH];
    intros sh c Hholds Httl Hroom Hall i o Hi; [done|].
  apply Forall_cons in Hall as [(Hk & Hs & Hnow & Htick) Hall].
  cbn [fst snd] in Hk, Hs, Hnow, Htick. cbn [length] in Hroom.
  pose proof (counted_run p sh clock request set0 key Hk Hs) as Hrun.
  cbn zeta in Hrun.
  rewrite (holds_lookup_now c r lo hi sh clock Hholds Httl Htick) in Hrun.
  cbn [reset count] in Hrun. rewrite bool_decide_eq_false_2 in Hrun by lia.
  destruct (handle_in_window p key set0 r lo hi sh clock request c
              Hholds Httl ltac:(lia) Hnow Htick) as (Hholds' & Hmax & Httl' & Hlen).
  rewrite (counted_true request Hk Hs) in Hholds'.
  cbn [serve] in Hi. destruct (handle p sh clock request set0) as [o1 sh1].
  cbn [fst snd] in *.
  specialize (IH sh1 (c + 1) Hholds' ltac:(lia) ltac:(lia) Hall).
  destruct (serve p set0 rest sh1) as [os sh2]. cbn [fst] in *.
  destruct i as [|i].
  - injection Hi as <-.
    destruct Hrun as (e' & -> & _ & _ & Hrem & _ & Hverdict).
    cbn [count] in *. rewrite Z.add_0_r. split; [|split; [exact Hrem|]].
    + case_bool_decide; [destruct Hverdict as [Hno _]|destruct Hverdict as [Hgo _]];
        split; intros; (done || lia).
    + case_bool_decide; [by destruct Hverdict as (_ & H429 & _)|].
      by destruct Hverdict as [Hgo _].
  - cbn in Hi. specialize (IH i o Hi).
    replace (c + Z.of_nat (S i) + 1) with (c + 1 + Z.of_nat i + 1) by lia.
    exact IH.
Qed.

(** A burst of [n] requests of one client, on a cache that holds nothing for
    it, all inside the time that a window lasts, with room in the cache and
    the time-to-live not running out: the first [maxRequests] proceed and
    all later ones are stopped with status 429; [RateLimit-Remaining] goes
    down by one with each request until it stays at 0. *)
Theorem burst_verdicts (arrivals : list (Clock * Request)) sh t0 lo :
  stored key sh = None ->
  Z.of_nat (length (LRUCache.items (cache_of sh))) + Z.of_nat (length arrivals)
    <= LRUCache.max (cache_of sh) ->
  Forall (fun ar => keyGenerator p ar.2 = Normal key /\
                    skip p ar.2 key = Normal false /\
                    t0 <= date_now ar.1 <= t0 + duration p /\
                    lo <= cache_now ar.1 <= lo + LRUCache.ttl (cache_of sh))
    arrivals ->
  forall (i : nat) o,
    (serve p set0 arrivals sh).1 !! i = Some o ->
    (proceeds o <-> Z.of_nat i < maxRequests p) /\
    header "RateLimit-Remaining" o =
      Some (Js.toString (Z.max 0 (maxRequests p - Z.of_nat i - 1))) /\
    (~ proceeds o -> status o = Some 429).
Proof.
  intros Hnone Hroom Hall i o Hi.
  destruct arrivals as [|[clock request] rest]; [done|].
  apply Forall_cons in Hall as [(Hk & Hs & Hnow & Htick) Hall].
  cbn [fst snd] in Hk, Hs, Hnow, Htick. cbn [length] in Hroom.
  assert (LRUCache.find_item key (LRUCache.items (cache_of sh)) = None) as Hfind.
  { unfold stored, LRUCache.peek in Hnone. fold (cache_of sh) in Hnone.
    by destruct (LRUCache.find_item key _). }
  pose proof (counted_run p sh clock request set0 key Hk Hs) as Hrun.
  cbn zeta in Hrun. rewrite lookup_now_value, get_value, Hfind in Hrun.
  destruct (handle_absent p key set0 lo (lo + LRUCache.ttl (cache_of sh)) sh clock
              request Hfind ltac:(lia) Htick) as (Hholds & Hmax & Httl & Hlen).
  rewrite (counted_true request Hk Hs) in Hholds.
  pose proof (serve_outcomes_in_window (date_now clock + duration p) lo
                (lo + LRUCache.ttl (cache_of sh)) rest
                (handle p sh clock request set0).2 1 Hholds) as Hrest.
  cbn [serve] in Hi. destruct (handle p sh clock request set0) as [o1 sh1].
  cbn [fst snd] in *.
  destruct (serve p set0 rest sh1) as [os sh2] eqn:Hserve. cbn [fst] in *.
  destruct i as [|i].
  - injection Hi as <-.
    destruct Hrun as (e' & -> & _ & _ & Hrem & _ & Hverdict).
    cbn [count] in *. split; [|split].
    + case_bool_decide; [destruct Hverdict as [Hno _]|destruct Hverdict as [Hgo _]];
        split; intros; (done || lia).
    + rewrite Hrem. unfold Js.max. do 2 f_equal. lia.
    + case_bool_decide; [by destruct Hverdict as (_ & H429 & _)|].
      by destruct Hverdict as [Hgo _].
  - cbn in Hi.
    destruct (Hrest ltac:(lia) ltac:(lia)) with (i := i) (o := o) as (Hgo & Hrem & H429).
    + eapply Forall_impl; [exact Hall|]. intros ar (? & ? & ? & ?).
      repeat split; (done || lia).
    + exact Hi.
    + split; [|split; [|exact H429]].
      * rewrite Hgo. lia.
      * rewrite Hrem. do 2 f_equal. lia.
Qed.

End burst.

Lemma burst_verdicts_witness :
  let outs :=
    (serve sample_plugin blank_set (replicate 5 (at_ms 0, sample_request))
       fresh_shared).1 in
  let o := default (mkOutcome (Normal None) blank_set) (outs !! 3%nat) in
  outs !! 3%nat = Some o /\ ~ proceeds o /\ status o = Some 429.
Proof.
  assert (Forall (fun ar : Clock * Request =>
                    keyGenerator sample_plugin ar.2 = Normal sample_key /\
                    skip sample_plugin ar.2 sample_key = Normal false /\
                    0 <= date_now ar.1 <= 0 + duration sample_plugin /\
                    0 <= cache_now ar.1 <= 0 + LRUCache.ttl (cache_of fresh_shared))
            (replicate 5 (at_ms 0, sample_request))) as Hall.
  { repeat (constructor; [by vm_compute|]). constructor. }
  pose proof (burst_verdicts sample_plugin sample_key blank_set
                (replicate 5 (at_ms 0, sample_request)) fresh_shared 0 0
                eq_refl ltac:(by vm_compute) Hall 3%nat) as Hburst.
  intros outs o.
  assert (outs !! 3%nat = Some o) as Hi by (vm_compute; reflexivity).
  destruct (Hburst o Hi) as (Hgo & _ & H429).
  assert (~ proceeds o) as Hno.
  { intros H. apply Hgo in H. vm_compute in H. discriminate H. }
  split; [exact Hi|]. split; [exact Hno|exact (H429 Hno)].
Defined.

(** ** Which header gives the key *)

(** The default key is the value of the first header, in the order of the
    request's headers, whose name trims and lower-cases to one of the three
    names; later headers do not matter, and the value is taken as it is,
    the empty string included. *)
Theorem default_key_first_match_wins (pre post : list (string * string))
    (name value : string) :
  let norm name := Js.toLowerCase (Js.trim name) in
  norm name ∈ forwarding_names ->
  Forall (fun kv => norm kv.1 ∉ forwarding_names) pre ->
  defaultKeyGenerator (mkRequest (pre ++ (name, value) :: post)) = value.
Proof.
  intros norm Hin Hpre. unfold defaultKeyGenerator. cbn [headers_entries].
  induction Hpre as [|kv pre Hkv _ IH]; cbn [app].
  - rewrite filter_cons_True; [done|]. unfold Js.includes. by apply bool_decide_pack.
  - rewrite filter_cons_False; [exact IH|].
    unfold Js.includes. intros Hc. by apply bool_decide_unpack in Hc.
Qed.

Lemma default_key_first_match_wins_witness :
  defaultKeyGenerator
    (mkRequest [("accept", "*/*"); (" X-Real-IP ", ""); ("forwarded", "for=198.51.100.1")])
  = "".
Proof.
  apply (default_key_first_match_wins [("accept", "*/*")]
           [("forwarded", "for=198.51.100.1")] " X-Real-IP " "").
  - apply list_elem_of_In. cbn. right. left. reflexivity.
  - constructor; [|constructor]. intros Hin. apply list_elem_of_In in Hin.
    cbn in Hin. destruct Hin as [H|[H|[H|[]]]]; discriminate H.
Defined.

(** * Properties of the logger *)

(** ** Splitting and joining *)

Section strings.
Import JsStr.
Implicit Types (c : ascii) (s d f : string).

Lemma append_nil s : "" +:+ s = s.
Proof. reflexivity. Qed.

Lemma append_cons a s1 s2 : String a s1 +:+ s2 = String a (s1 +:+ s2).
Proof. reflexivity. Qed.

Lemma split_nonempty c s : split c s <> [].
Proof.
  destruct s as [|a s]; cbn; [done|].
  destruct (Ascii.eqb a c); [done|]. by destruct (split c s).
Qed.

Lemma split_lacks c s : lacks c s -> split c s = [s].
Proof.
  induction s as [|a s IH]; cbn; [done|]. intros [Hne Hs].
  rewrite (proj2 (Ascii.eqb_neq a c) Hne). by rewrite (IH Hs).
Qed.

Lemma split_head c s1 s2 :
  lacks c s1 -> split c (s1 +:+ String c s2) = s1 :: split c s2.
Proof.
  induction s1 as [|a s1 IH].
  - intros _. rewrite append_nil. cbn. by rewrite Ascii.eqb_refl.
  - intros [Hne Hs]. rewrite append_cons. cbn [split].
    rewrite (proj2 (Ascii.eqb_neq a c) Hne). by rewrite (IH Hs).
Qed.

Lemma split_last c d f :
  lacks c f -> split c (d +:+ String c f) = split c d ++ [f].
Proof.
  intros Hf. induction d as [|a d IH].
  - rewrite append_nil. cbn. by rewrite Ascii.eqb_refl, (split_lacks c f Hf).
  - rewrite append_cons. cbn [split].
    destruct (Ascii.eqb a c); [by rewrite IH|].
    rewrite IH. pose proof (split_nonempty c d).
    by destruct (split c d).
Qed.

Lemma join_cons_char c a piece pieces :
  join (String c "") (String a piece :: pieces) =
  String a (join (String c "") (piece :: pieces)).
Proof. by destruct pieces. Qed.

Lemma join_split c s : join (String c "") (split c s) = s.
Proof.
  induction s as [|a s IH]; [done|]. cbn [split].
  destruct (Ascii.eqb a c) eqn:E.
  - apply Ascii.eqb_eq in E as ->. pose proof (split_nonempty c s).
    cbn [join]. destruct (split c s); [done|].
    rewrite append_nil, append_cons, append_nil. by rewrite IH.
  - pose proof (split_nonempty c s). destruct (split c s) as [|piece pieces]; [done|].
    by rewrite join_cons_char, IH.
Qed.

Lemma lastIndexOf_lacks c s : lacks c s -> lastIndexOf c s = -1.
Proof.
  induction s as [|a s IH]; cbn; [done|]. intros [Hne Hs].
  rewrite (IH Hs). cbn. by rewrite (proj2 (Ascii.eqb_neq a c) Hne).
Qed.

Lemma lastIndexOf_last c d f :
  lacks c f -> lastIndexOf c (d +:+ String c f) = Z.of_nat (String.length d).
Proof.
  intros Hf. induction d as [|a d IH].
  - rewrite append_nil. cbn [lastIndexOf String.length].
    rewrite (lastIndexOf_lacks c f Hf). cbn. by rewrite Ascii.eqb_refl.
  - rewrite append_cons. cbn [lastIndexOf String.length].
    rewrite IH. destruct (0 <=? Z.of_nat (String.length d)) eqn:E; lia.
Qed.

Lemma take_chars_app d s : take_chars (String.length d) (d +:+ s) = d.
Proof.
  induction d as [|a d IH]; [by destruct s|].
  rewrite append_cons. cbn. by rewrite IH.
Qed.

End strings.

(** ** The name of the log file *)

Lemma daily_path_of_extension (date rest base ext : string) :
  JsStr.lacks ":" date ->
  JsStr.lacks "." ext ->
  getDailyFilePath (date +:+ ":" +:+ rest) (base +:+ "." +:+ ext) =
  base +:+ "-" +:+ date +:+ "." +:+ ext.
Proof.
  intros Hdate Hext. unfold getDailyFilePath, JsStr.pop, JsStr.substring0.
  change (":" +:+ rest) with (String ":" rest).
  change ("." +:+ ext) with (String "." ext).
  rewrite (split_head ":" date rest Hdate), (split_last "." base ext Hext), last_snoc.
  rewrite (lastIndexOf_last "." base ext Hext), Nat2Z.id, take_chars_app.
  done.
Qed.

(** For a base path that ends in an extension, the file of the hour: the
    part of the clock reading before its first colon (the date and the
    hour) goes between the name and the extension. *)
Theorem getDailyFilePath_dated (date rest base ext : string) :
  JsStr.lacks ":" date ->
  JsStr.lacks "." ext ->
  getDailyFilePath (date +:+ ":" +:+ rest) (base +:+ "." +:+ ext) =
  base +:+ "-" +:+ date +:+ "." +:+ ext.
Proof.
  intros Hdate Hext. unfold getDailyFilePath, JsStr.pop, JsStr.substring0.
  change (":" +:+ rest) with (String ":" rest).
  change ("." +:+ ext) with (String "." ext).
  rewrite (split_head ":" date rest Hdate).
  rewrite (split_last "." base ext Hext), last_snoc.
  rewrite (lastIndexOf_last "." base ext Hext), Nat2Z.id.
  by rewrite take_chars_app.
Qed.

Lemma getDailyFilePath_dated_witness :
  getDailyFilePath "2025-05-29T00:12:13.456Z" "./logs/app.log"
  = "./logs/app-2025-05-29T00.log".
Proof.
  apply (getDailyFilePath_dated "2025-05-29T00" "12:13.456Z" "./logs/app" "log");
    cbn; repeat split; discriminate.
Defined.

(** For a base path without any dot, the whole path is taken for the
    extension and nothing for the name: the file is ["-"], the date and
    hour, a dot, and then the path. *)
Theorem getDailyFilePath_without_dot (date rest path : string) :
  JsStr.lacks ":" date ->
  JsStr.lacks "." path ->
  getDailyFilePath (date +:+ ":" +:+ rest) path = "-" +:+ date +:+ "." +:+ path.
Proof.
  intros Hdate Hpath. unfold getDailyFilePath, JsStr.pop, JsStr.substring0.
  change (":" +:+ rest) with (String ":" rest).
  rewrite (split_head ":" date rest Hdate), (split_lacks "." path Hpath).
  rewrite (lastIndexOf_lacks "." path Hpath). by destruct path.
Qed.

Lemma getDailyFilePath_without_dot_witness :
  getDailyFilePath "2025-05-29T00:12:13.456Z" "logs/app" = "-2025-05-29T00.logs/app".
Proof.
  apply (getDailyFilePath_without_dot "2025-05-29T00" "12:13.456Z" "logs/app");
    cbn; repeat split; discriminate.
Defined.

(** ** Writing to the log file *)

Lemma directory_of_split (d f : string) :
  JsStr.lacks "/" f -> directory_of (d +:+ "/" +:+ f) = d.
Proof.
  intros Hf. unfold directory_of, JsStr.slice_init.
  change ("/" +:+ f) with (String "/" f).
  rewrite (split_last "/" d f Hf), removelast_last. apply join_split.
Qed.

Lemma directory_of_plain (path : string) :
  JsStr.lacks "/" path -> directory_of path = "".
Proof.
  intros Hp. unfold directory_of, JsStr.slice_init.
  by rewrite (split_lacks "/" path Hp).
Qed.

(** [logToFile] makes the directory of the path, which is everything before
    its last slash, and only then appends the message.  When making the
    directory fails, nothing is appended.  Whatever fails, the failure ends
    as exactly one line on [console.error], which names the path and the
    error; when nothing fails, [console.error] gets nothing; and nothing
    ever goes to [console.log].  A path without a slash, or with nothing
    before its only slash, has no directory to make: the message is
    appended at once, with the same report of a failure. *)
Theorem logToFile_directory_first (fs : FsAnswers) (message : string) :
  (forall d f,
     JsStr.lacks "/" f ->
     let path := d +:+ "/" +:+ f in
     let out := logToFile fs path message in
     let failed (err : string) :=
       COLORS_error +:+ "[ERROR] Failed to write to " +:+ path +:+ ": " +:+ err
         +:+ COLORS_reset in
     console_log out = [] /\
     if bool_decide (d = "") then
       fs_calls out = [AppendFile path message] /\
       console_error out =
         match fs (AppendFile path message) with
         | Some err => [failed err]
         | None => []
         end
     else
       match fs (Mkdir d) with
       | Some err => fs_calls out = [Mkdir d] /\ console_error out = [failed err]
       | None =>
           fs_calls out = [Mkdir d; AppendFile path message] /\
           console_error out =
             match fs (AppendFile path message) with
             | Some err => [failed err]
             | None => []
             end
       end) /\
  (forall path,
     JsStr.lacks "/" path ->
     let out := logToFile fs path message in
     console_log out = [] /\
     fs_calls out = [AppendFile path message] /\
     console_error out =
       match fs (AppendFile path message) with
       | Some err =>
           [COLORS_error +:+ "[ERROR] Failed to write to " +:+ path +:+ ": " +:+ err
              +:+ COLORS_reset]
       | None => []
       end).
Proof.
  split.
  - intros d f Hf path out failed. subst out failed. unfold logToFile.
    subst path. rewrite (directory_of_split d f Hf).
    case_bool_decide as Hd.
    + destruct (fs (AppendFile _ message)); cbn; by repeat split.
    + destruct (fs (Mkdir d)); [done|].
      destruct (fs (AppendFile _ message)); cbn; by repeat split.
  - intros path Hp out. subst out. unfold logToFile.
    rewrite (directory_of_plain path Hp).
    rewrite bool_decide_eq_true_2 by done.
    by destruct (fs (AppendFile path message)).
Qed.

Lemma logToFile_directory_first_witness :
  let fs : FsAnswers :=
    fun call => match call with Mkdir _ => Some "EACCES" | AppendFile _ _ => None end in
  (fs_calls (logToFile fs "./logs/app-2025-05-29T00.log" "App started")
   = [Mkdir "./logs"] /\
   length (console_error (logToFile fs "./logs/app-2025-05-29T00.log" "App started"))
   = 1%nat) /\
  fs_calls (logToFile fs "app.log" "App started") = [AppendFile "app.log" "App started"] /\
  console_error (logToFile fs "app.log" "App started") = [].
Proof.
  intros fs.
  destruct (logToFile_directory_first fs "App started") as [Hdir Hplain].
  split.
  - assert (Hf : JsStr.lacks "/" "app-2025-05-29T00.log")
      by (cbn; repeat split; discriminate).
    destruct (Hdir "./logs" "app-2025-05-29T00.log" Hf) as [_ [Hcalls Herr]].
    split; [exact Hcalls|]. exact (f_equal length Herr).
  - assert (Hp : JsStr.lacks "/" "app.log") by (cbn; repeat split; discriminate).
    destruct (Hplain "app.log" Hp) as (_ & Hcalls & Herr).
    split; [exact Hcalls|exact Herr].
Defined.

(** ** What [log] prints and writes *)

(** A message below the minimum level of the logger, which is [info] when no
    level is configured, has no effect at all: no line on the console and no
    call into the file system.  A message at or above it gives exactly one
    line to [console.log], and touches the file system only when a file
    path is configured and not empty. *)
Theorem log_level_filter {D} (options : LoggerOptions D) stamps fs level message ctx :
  let minimum := default info (lo_logLevel options) in
  let out := Logger_log_effects options stamps fs level message ctx in
  (levels level < levels minimum -> out = no_effects) /\
  (levels minimum <= levels level ->
   length (console_log out) = 1%nat /\
   (lo_filePath options = None \/ lo_filePath options = Some "" ->
    fs_calls out = [] /\ console_error out = [])).
Proof.
  intros minimum out. subst out. unfold Logger_log_effects. fold minimum.
  unfold shouldLog. split; intros Hlevel.
  - by rewrite bool_decide_eq_false_2 by lia.
  - rewrite bool_decide_eq_true_2 by lia. cbn [negb]. split.
    + destruct (lo_filePath options) as [path|]; [|done].
      case_bool_decide; [done|]. cbn [and_then console_log].
      unfold logToFile.
      destruct (if bool_decide (directory_of _ = "") then None else fs _); [done|].
      by destruct (fs (AppendFile _ _)).
    + intros [-> | ->]; [done|]. by rewrite bool_decide_eq_true_2.
Qed.

(** A message logged without a request, such as the warning of the rate
    limiter, is written to the file as it is: the file of the hour gets the
    bare message and a line feed, without level and without time. *)
Theorem plain_message_file_line {D} (options : LoggerOptions D) stamps fs level
    message (path : string) :
  lo_filePath options = Some path ->
  path <> "" ->
  levels (default info (lo_logLevel options)) <= levels level ->
  (forall call, fs call = None) ->
  let out := Logger_log_effects options stamps fs level message None in
  last (fs_calls out) =
    Some (AppendFile (getDailyFilePath (stamp_path stamps) path) (message +:+ line_feed)) /\
  console_error out = [].
Proof.
  intros Hpath Hne Hlevel Hfs out. subst out. unfold Logger_log_effects, shouldLog.
  rewrite bool_decide_eq_true_2 by lia. cbn [negb]. rewrite Hpath.
  rewrite bool_decide_eq_false_2 by done. cbn [and_then fs_calls console_error app].
  unfold logToFile. rewrite !Hfs.
  destruct (bool_decide (directory_of _ = "")); cbn; by rewrite ?Hfs.
Qed.

Lemma plain_message_file_line_witness :
  let options : LoggerOptions whole_milliseconds :=
    mkLoggerOptions None (Some "./logs/app.log") None None in
  last (fs_calls (Logger_log_effects options sample_stamps fs_ok warn
                    "Rate limit exceeded for key: unknown" None))
  = Some (AppendFile "./logs/app-2025-05-29T00.log"
            ("Rate limit exceeded for key: unknown" +:+ line_feed)).
Proof.
  intros options.
  destruct (plain_message_file_line options sample_stamps fs_ok warn
              "Rate limit exceeded for key: unknown" "./logs/app.log")
    as [Hlast _]; [reflexivity|discriminate|by vm_compute|done|].
  rewrite Hlast. by vm_compute.
Defined.

(** ** The hooks of the logger plugin *)

Section logger_hooks.
Context {D : Doubles} (StatusMap : string -> option Z).
Implicit Types (stamps : Stamps) (fs : FsAnswers) (request : RequestLine).
Implicit Types (store : LoggerStore D) (code : option StatusCode).

(** The status that is logged when [set.status] gives none.  A status that
    is 0, or a name that [StatusMap] does not know (or maps to 0), is logged
    as 200 after a response and as 500 for an error.  A status that is not
    set at all is logged as 200 in both hooks: [normalizeStatusCode] has
    already made it 200 when [onError] comes to its own default of 500. *)
Theorem status_fallbacks stamps fs now1 now2 request code store :
  let logged level status :=
    Logger_log_effects (store_logger store) stamps fs level ""
      (Some (mkLogCtx request (Some
            (double_minus D now1
         (if double_truthy D (requestStartTime store) then requestStartTime store
          else now2))) (Some status))) in
  (code = None ->
   onAfterResponse StatusMap stamps fs now1 now2 request code store = logged info 200 /\
   onError StatusMap stamps fs now1 now2 request code store = logged error 200) /\
  (code = Some (StatusNumber 0) \/
   (exists name, code = Some (StatusName name) /\
                 (StatusMap name = None \/ StatusMap name = Some 0)) ->
   onAfterResponse StatusMap stamps fs now1 now2 request code store = logged info 200 /\
   onError StatusMap stamps fs now1 now2 request code store = logged error 500).
Proof.
  intros logged. subst logged. unfold onAfterResponse, onError. split.
  - intros ->. split; reflexivity.
  - intros [->|(name & -> & [Hn|Hn])]; cbn [normalizeStatusCode]; rewrite ?Hn;
      split; reflexivity.
Qed.

(** The logger plugin keeps one start time for the whole application: the
    [onRequest] hook of a later request overwrites that of an earlier one,
    so the response time logged for the earlier request is measured from
    the start of the later one. *)
Theorem response_time_from_latest_request stamps fs (tA tB now1 now2 : double D)
    request code store :
  double_truthy D tB = true ->
  let status := or_number (normalizeStatusCode StatusMap code) 200 in
  let level :=
    if bool_decide (status >= 500) then error
    else if bool_decide (status >= 400) then warn else info in
  onAfterResponse StatusMap stamps fs now1 now2 request code
    (logger_onRequest tB (logger_onRequest tA store)) =
  Logger_log_effects (store_logger store) stamps fs level ""
    (Some (mkLogCtx request (Some (double_minus D now1 tB)) (Some status))).
Proof.
  intros HtB status level. unfold onAfterResponse, logger_onRequest.
  cbn [requestStartTime store_logger]. by rewrite HtB.
Qed.

(** The logger reads [logLevel] and [filePath] only: a [format] given in the
    options is never called.  Two sets of options that differ in [format]
    alone give the same output of [log], the same output of the hooks of
    the plugin, and the same registrations of these hooks. *)
Theorem logger_ignores_format (options options' : LoggerOptions D) :
  lo_logLevel options = lo_logLevel options' ->
  lo_filePath options = lo_filePath options' ->
  lo_scope options = lo_scope options' ->
  (forall stamps fs level message ctx,
     Logger_log_effects options stamps fs level message ctx =
     Logger_log_effects options' stamps fs level message ctx) /\
  (forall stamps fs now1 now2 request code,
     onAfterResponse StatusMap stamps fs now1 now2 request code (loggerPlugin options) =
     onAfterResponse StatusMap stamps fs now1 now2 request code (loggerPlugin options') /\
     onError StatusMap stamps fs now1 now2 request code (loggerPlugin options) =
     onError StatusMap stamps fs now1 now2 request code (loggerPlugin options')) /\
  loggerPlugin_hooks options = loggerPlugin_hooks options'.
Proof.
  intros Hlevel Hpath Hscope. split; [|split].
  - intros. unfold Logger_log_effects. by rewrite Hlevel, Hpath.
  - intros. unfold onAfterResponse, onError, loggerPlugin, Logger_log_effects.
    cbn [store_logger requestStartTime lo_logLevel lo_filePath].
    by rewrite Hlevel, Hpath.
  - unfold loggerPlugin_hooks. by rewrite Hscope.
Qed.

End logger_hooks.

Lemma status_fallbacks_witness :
  let store := loggerPlugin no_logger_options in
  @onError whole_milliseconds (fun _ => None) sample_stamps fs_ok 5 5
    sample_line None store
  = Logger_log_effects (store_logger store) sample_stamps fs_ok error ""
      (Some (@mkLogCtx whole_milliseconds sample_line (Some 0) (Some 200))) /\
  @onError whole_milliseconds (fun _ => None) sample_stamps fs_ok 5 5
    sample_line (Some (StatusName "Teapot")) store
  = Logger_log_effects (store_logger store) sample_stamps fs_ok error ""
      (Some (@mkLogCtx whole_milliseconds sample_line (Some 0) (Some 500))).
Proof.
  intros store.
  destruct (status_fallbacks (D := whole_milliseconds) (fun _ => None) sample_stamps
              fs_ok 5 5 sample_line None store) as [Hunset _].
  destruct (status_fallbacks (D := whole_milliseconds) (fun _ => None) sample_stamps
              fs_ok 5 5 sample_line (Some (StatusName "Teapot")) store) as [_ Hunknown].
  split.
  - exact (proj2 (Hunset eq_refl)).
  - refine (proj2 (Hunknown _)). right. exists "Teapot". split; [reflexivity|by left].
Defined.

Lemma response_time_from_latest_request_witness :
  let store := loggerPlugin no_logger_options in
  @onAfterResponse whole_milliseconds (fun _ => None) sample_stamps fs_ok
    130 130 sample_line None
    (@logger_onRequest whole_milliseconds 120
       (@logger_onRequest whole_milliseconds 100 store))
  = Logger_log_effects (store_logger store) sample_stamps fs_ok info ""
      (Some (@mkLogCtx whole_milliseconds sample_line (Some 10) (Some 200))).
Proof.
  intros store.
  exact (response_time_from_latest_request (D := whole_milliseconds) (fun _ => None)
           sample_stamps fs_ok 100 120 130 130 sample_line None store eq_refl).
Defined.

Lemma logger_ignores_format_witness :
  let silly : string -> RequestLine -> double whole_milliseconds -> Z -> string :=
    fun _ _ _ _ => "custom" in
  @onAfterResponse whole_milliseconds (fun _ => None) sample_stamps fs_ok 130 130
    sample_line None (loggerPlugin (mkLoggerOptions None None None (Some silly)))
  = @onAfterResponse whole_milliseconds (fun _ => None) sample_stamps fs_ok 130 130
      sample_line None (loggerPlugin no_logger_options).
Proof.
  intros silly.
  destruct (logger_ignores_format (D := whole_milliseconds) (fun _ => None)
              (mkLoggerOptions None None None (Some silly)) no_logger_options
              eq_refl eq_refl eq_refl) as (_ & Hhooks & _).
  exact (proj1 (Hhooks sample_stamps fs_ok 130 130 sample_line None)).
Defined.

Lemma log_level_filter_witness :
  Logger_log_effects no_logger_options sample_stamps fs_ok debug "details" None
  = no_effects.
Proof.
  refine (proj1 (log_level_filter no_logger_options sample_stamps fs_ok debug
                   "details" None) _).
  by vm_compute.
Defined.

(** ** The files of a plugin made without options *)

Lemma lacks_app c (s1 s2 : string) :
  JsStr.lacks c s1 -> JsStr.lacks c s2 -> JsStr.lacks c (s1 +:+ s2).
Proof.
  intros H1 H2. induction s1 as [|a s1 IH]; [done|].
  rewrite append_cons. destruct H1 as [Hne H1]. split; [done|]. by apply IH.
Qed.

(** A logger plugin made without a file path and without a level writes
    every response to a file all the same: it makes the directory
    ["./logs"] and appends one line to ["./logs/app-"], the date and hour,
    [".log"]. *)
Theorem default_plugin_writes_hourly_file {D : Doubles}
    (StatusMap : string -> option Z) (options : LoggerOptions D) stamps
    (now1 now2 : double D) (request : RequestLine) code (date rest : string) :
  lo_filePath options = None ->
  lo_logLevel options = None ->
  stamp_path stamps = date +:+ ":" +:+ rest ->
  JsStr.lacks ":" date ->
  JsStr.lacks "/" date ->
  let out :=
    onAfterResponse StatusMap stamps fs_ok now1 now2 request code (loggerPlugin options) in
  length (console_log out) = 1%nat /\
  console_error out = [] /\
  exists line,
    fs_calls out =
      [Mkdir "./logs";
       AppendFile ("./logs/app-" +:+ date +:+ ".log") (line +:+ line_feed)].
Proof.
  intros Hpath Hlevel Hstamp Hcolon Hslash out. subst out.
  unfold onAfterResponse, loggerPlugin. cbn [store_logger requestStartTime].
  rewrite Hpath, Hlevel. cbn [default].
  set (status := or_number _ 200).
  set (level := if bool_decide (status >= 500) then error
                else if bool_decide (status >= 400) then warn else info).
  assert (shouldLog level info = true) as Hshould.
  { subst level. by repeat case_bool_decide. }
  unfold Logger_log_effects. cbn [lo_logLevel lo_filePath default]. unfold id.
  rewrite Hshould. cbn [negb]. rewrite bool_decide_eq_false_2 by done.
  rewrite Hstamp.
  change "./logs/app.log" with ("./logs/app" +:+ "." +:+ "log").
  rewrite (daily_path_of_extension date rest "./logs/app" "log" Hcolon);
    [|cbn; repeat split; discriminate].
  change ("./logs/app" +:+ "-" +:+ date +:+ "." +:+ "log")
    with ("./logs" +:+ "/" +:+ ("app-" +:+ date +:+ ".log")).
  unfold logToFile. rewrite directory_of_split; cycle 1.
  { apply (lacks_app "/" "app-"); [cbn; repeat split; discriminate|].
    apply lacks_app; [done|]. cbn. repeat split; discriminate. }
  rewrite bool_decide_eq_false_2 by done. unfold fs_ok. cbn.
  repeat split. by eexists.
Qed.

Lemma default_plugin_writes_hourly_file_witness :
  head (fs_calls
          (@onAfterResponse whole_milliseconds (fun _ => None) sample_stamps fs_ok
             130 130 sample_line None (loggerPlugin no_logger_options)))
  = Some (Mkdir "./logs").
Proof.
  destruct (default_plugin_writes_hourly_file (D := whole_milliseconds) (fun _ => None)
              no_logger_options sample_stamps 130 130 sample_line None
              "2025-05-29T00" "12:13.457Z" eq_refl eq_refl eq_refl)
    as (_ & _ & line & Hcalls).
  - cbn. repeat split; discriminate.
  - cbn. repeat split; discriminate.
  - by rewrite Hcalls.
Defined.
